(** * THZ detector core: a shallow embedding of the Python sources

    The development follows the classes of the repository:
    - [CoordinatePredictor] (CoorDroneWidget.py): the 12-state Kalman filter;
    - [FrameBuffer] (FrameBuffer.py): the bounded deque of recent frames;
    - [TcpServer] (TcpServer.py): the length-prefixed packet decoder;
    - [TerahertzDetectorUI] (TerahertzDetectorUI.py): the recording session
      logic and the automatic time-base arbitration.

    NumPy float64 values are embedded as elements of an arbitrary real field
    [F] (exact arithmetic, no rounding); 2-D arrays that take part in matrix
    algebra are MathComp matrices, 1-D arrays coming from the network are
    sequences.  Definitions come first, theorems second. *)

From HB Require Import structures.
From mathcomp Require Import ssreflect ssrfun ssrbool eqtype ssrnat seq choice.
From mathcomp Require Import div fintype bigop tuple finfun order.
From mathcomp Require Import ssralg ssrnum ssrint rat matrix mxalgebra.
From mathcomp Require Import archimedean.
From Stdlib Require Strings.Byte.
From coqutil Require Import Datatypes.RecordSetters.

Set Implicit Arguments.
Unset Strict Implicit.
Unset Printing Implicit Defensive.

Import GRing.Theory Num.Theory Order.Theory.

(** Functional record update, [st <| field := v |>]. *)
Notation "x <| u |>" := (apply_update u x)
  (at level 12, u custom field_update at level 1, left associativity,
   format "x <| u |>").
Arguments apply_update : simpl never.

(** ** Constants of C.py *)

Definition FRAME_WIDTH : nat := 64.
Definition FRAME_HEIGHT : nat := 64.
Definition MAX_RECORDED_FRAMES : nat := 99.
Definition DEFAULT_FRAME_COUNT : nat := 60.
Definition COORD_DIMENSION : nat := 12.

Section Thresholds.
Variable F : realFieldType.
Definition AUTO_SWITCH_THRESHOLD_MS : F := 100%:R.
Definition FPS_DIFF_THRESHOLD : F := 5%:R.
End Thresholds.
Arguments AUTO_SWITCH_THRESHOLD_MS {F}.
Arguments FPS_DIFF_THRESHOLD {F}.

(** [collections.deque(maxlen=n).append]: the oldest entries fall off the
    left end once the bound is exceeded. *)
Definition deque_append (T : Type) (maxlen : nat) (d : seq T) (v : T) : seq T :=
  let d' := rcons d v in drop (size d' - maxlen) d'.

(** ** CoordinatePredictor (CoorDroneWidget.py) *)

Module CoordinatePredictor.
Local Open Scope ring_scope.
Section Filter.
Variable F : realFieldType.

(** Messages handed to [log_callback]. *)
Inductive log_msg :=
| LogFpsUpdated (fps : F) (fixed : bool)
| LogLengthError (len : nat)
| LogUsePushFps (dt fps : F)
| LogUseMeasuredDt (dt actual_fps : F)
| LogFirstUpdate (dt : F)
| LogCoordUpdated
| LogCoordRepeated
| LogPredict (px py pz : F)
| LogMeasure (zx zy zz : F)
| LogUpdate (px py pz vx vy vz : F).

(** The mutable attributes of the object.  [H], [Q] and [R_base] are assigned
    once in [__init__] and never again, so they are constants below. *)
Record t := Make {
  A : 'M[F]_12;
  R : 'M[F]_6;
  x : 'cV[F]_12;
  P : 'M[F]_12;
  last_update_time : option F;
  state_history : seq 'cV[F]_12;
  current_fps : F;
  default_dt : F;
  use_fixed_fps : bool;
  log_callback : bool
}.

(** [np.zeros((6, 12))] with [H[i, i] = 1.0] for [i in range(6)]. *)
Definition H : 'M[F]_(6, 12) := \matrix_(i, j) ((i : nat) == j)%:R.
(** [np.eye(12) * 0.1] *)
Definition Q : 'M[F]_12 := 10%:R^-1 *: 1%:M.
(** [np.eye(6) * 1.0] *)
Definition R_base : 'M[F]_6 := 1 *: 1%:M.
(** [np.eye(12) * 100.0] *)
Definition P_init : 'M[F]_12 := 100%:R *: 1%:M.

(** [__init__]: [1.0 / initial_fps] raises [ZeroDivisionError] on zero. *)
Definition init (initial_fps : F) : option t :=
  if initial_fps == 0 then None
  else Some {| A := 1%:M; R := R_base; x := 0; P := P_init;
               last_update_time := None; state_history := [::];
               current_fps := initial_fps; default_dt := 1 / initial_fps;
               use_fixed_fps := true; log_callback := false |}.

Definition emit (p : t) (m : seq log_msg) : seq log_msg :=
  if log_callback p then m else [::].

(** [set_fps(fps, use_fixed=None)] *)
Definition set_fps (p : t) (fps : F) (use_fixed : option bool) : t * seq log_msg :=
  if fps <= 0 then (p, [::])
  else
    let mode := if use_fixed is Some b then b else use_fixed_fps p in
    let p' := {| A := A p; R := R p; x := x p; P := P p;
                 last_update_time := last_update_time p;
                 state_history := state_history p;
                 current_fps := fps; default_dt := 1 / fps;
                 use_fixed_fps := mode; log_callback := log_callback p |} in
    (p', emit p' [:: LogFpsUpdated fps mode]).

(** [reset()] *)
Definition reset (p : t) : t :=
  {| A := A p; R := R_base; x := 0; P := P_init;
     last_update_time := None; state_history := [::];
     current_fps := current_fps p; default_dt := default_dt p;
     use_fixed_fps := true; log_callback := log_callback p |}.

(** A 1-D measurement array read as a column vector. *)
Definition vec6 (m : seq F) : 'cV[F]_6 := \col_(i < 6) nth 0 m i.

(** The time step chosen by [update], with the message it logs. *)
Definition choose_dt (p : t) (timestamp : F) : F * log_msg :=
  if use_fixed_fps p then
    (default_dt p, LogUsePushFps (default_dt p) (current_fps p))
  else if last_update_time p is Some t0 then
    let dt := timestamp - t0 in
    (dt, LogUseMeasuredDt dt (if 0 < dt then 1 / dt else 0))
  else (default_dt p, LogFirstUpdate (default_dt p)).

(** [for i in range(6): self.A[i, i + 6] = dt] *)
Definition set_A_dt (A0 : 'M[F]_12) (dt : F) : 'M[F]_12 :=
  \matrix_(i, j) (if (i < 6)%N && ((j : nat) == i + 6)%N then dt else A0 i j).

(** How a call ends: by returning, or with [numpy.linalg.LinAlgError] raised
    by [np.linalg.inv] on a singular matrix.  Both carry the object as the
    call leaves it and what was logged. *)
Inductive outcome :=
| Returned (p : t) (log : seq log_msg)
| Raised (p : t) (log : seq log_msg).

Definition state_of (o : outcome) : t :=
  match o with Returned p _ => p | Raised p _ => p end.

Definition log_of (o : outcome) : seq log_msg :=
  match o with Returned _ l => l | Raised _ l => l end.

Definition returned (o : outcome) : bool :=
  if o is Returned _ _ then true else false.

(** The measurement-noise covariance [update] selects. *)
Definition noise (is_coord_updated : bool) : 'M[F]_6 :=
  if is_coord_updated then R_base else 100%:R *: R_base.

(** [update(measurement, timestamp, is_coord_updated)] *)
Definition update (p : t) (measurement : seq F) (timestamp : F)
    (is_coord_updated : bool) : outcome :=
  if size measurement != 6 then
    Returned p (emit p [:: LogLengthError (size measurement)])
  else
    let: (dt, dt_msg) := choose_dt p timestamp in
    let A1 := set_A_dt (A p) dt in
    let R1 := noise is_coord_updated in
    let x_prior := A1 *m x p in
    let P_prior := A1 *m P p *m A1^T + Q in
    let log1 := [:: dt_msg;
                    if is_coord_updated then LogCoordUpdated else LogCoordRepeated;
                    LogPredict (x_prior ord0 0) (x_prior (inord 1) 0)
                               (x_prior (inord 2) 0)] in
    let z := vec6 measurement in
    let y := z - H *m x_prior in
    let S := H *m P_prior *m H^T + R1 in
    if S \in unitmx then
      let K := P_prior *m H^T *m invmx S in
      let x1 := x_prior + K *m y in
      let P1 := (1%:M - K *m H) *m P_prior in
      let p' := {| A := A1; R := R1; x := x1; P := P1;
                   last_update_time := Some timestamp;
                   state_history := deque_append 10 (state_history p) x1;
                   current_fps := current_fps p; default_dt := default_dt p;
                   use_fixed_fps := use_fixed_fps p;
                   log_callback := log_callback p |} in
      Returned p' (emit p (log1 ++
        [:: LogMeasure (z ord0 0) (z (inord 1) 0) (z (inord 2) 0);
            LogUpdate (x1 ord0 0) (x1 (inord 1) 0) (x1 (inord 2) 0)
                      (x1 (inord 6) 0) (x1 (inord 7) 0) (x1 (inord 8) 0)]))
    else
      Raised {| A := A1; R := R1; x := x p; P := P p;
                last_update_time := Some timestamp;
                state_history := state_history p;
                current_fps := current_fps p; default_dt := default_dt p;
                use_fixed_fps := use_fixed_fps p;
                log_callback := log_callback p |}
             (emit p log1).

(** [get_current_state()] returns a copy of [x]. *)
Definition get_current_state (p : t) : 'cV[F]_12 := x p.

(** Running a list of [update] calls; a raised error is caught by the caller
    (a Qt slot) and the object lives on. *)
Definition update_all (p : t) (calls : seq (seq F * F * bool)) : t :=
  foldl (fun q c => state_of (update q c.1.1 c.1.2 c.2)) p calls.

End Filter.
Arguments LogLengthError {F}.
Arguments LogCoordUpdated {F}.
Arguments LogCoordRepeated {F}.
Arguments A {F}.
Arguments R {F}.
Arguments x {F}.
Arguments P {F}.
Arguments last_update_time {F}.
Arguments state_history {F}.
Arguments current_fps {F}.
Arguments default_dt {F}.
Arguments use_fixed_fps {F}.
Arguments log_callback {F}.

(** The public methods that change the object, as data, and a run of them
    on one object. *)
Section Calls.
Variable F : realFieldType.

Inductive call :=
| SetFps (fps : F) (use_fixed : option bool)
| Reset
| Update (measurement : seq F) (timestamp : F) (is_coord_updated : bool).

Definition apply_call (p : t F) (c : call) : t F :=
  match c with
  | SetFps fps use_fixed => (set_fps p fps use_fixed).1
  | Reset => reset p
  | Update m ts fresh => state_of (update p m ts fresh)
  end.

Definition apply_calls (p : t F) (cs : seq call) : t F := foldl apply_call p cs.

(** The object as [__init__] leaves it, for any initial fps, and with any
    log callback and mode set afterwards. *)
Definition pristine (p : t F) : Prop :=
  [/\ A p = 1%:M, (x p, P p) = (0, P_init F),
      (last_update_time p, state_history p) = (None, [::])
    & default_dt p = 1 / current_fps p].

(** [x[6:]] of a 12-element array: the velocities. *)
Definition last6 (v : 'cV[F]_12) : 'cV[F]_6 :=
  \col_(i < 6) v (inord (i + 6)) 0.

End Calls.
Arguments Reset {F}.

Section Prediction.
Variable F : archiRealFieldType.

(** [int(v)] on a float: truncation towards zero. *)
Definition int_of_float (v : F) : int :=
  if 0 <= v then Num.floor v else Num.ceil v.

(** [v[:6]] of a 12-element array. *)
Definition first6 (v : 'cV[F]_12) : 'cV[F]_6 :=
  \col_(i < 6) v (widen_ord (isT : (6 <= 12)%N) i) 0.

(** [predict(future_time)] *)
Definition predict (p : t F) (future_time : F) : 'cV[F]_6 :=
  if last_update_time p is Some _ then
    let steps := int_of_float (future_time * current_fps p) in
    if steps <= 0 then first6 (x p)
    else first6 (iter `|steps| (mulmx (A p)) (x p))
  else first6 (x p).

End Prediction.
End CoordinatePredictor.

(** ** FrameBuffer (FrameBuffer.py) *)

Module FrameBuffer.

(** A frame is a 2-D [uint8] array, kept as its rows. *)
Definition frame := seq (seq nat).

Definition pixel (f : frame) (i j : nat) : nat := nth 0 (nth [::] f i) j.

(** The arrays the decoder emits: [FRAME_HEIGHT] rows of [FRAME_WIDTH]
    values below 256. *)
Definition is_frame (f : frame) : bool :=
  (size f == FRAME_HEIGHT) &&
  all (fun r => (size r == FRAME_WIDTH) && all (fun v => v < 256) r) f.

Record t := Make {
  maxlen : nat;
  buffer : seq frame;
  reference_frame : option frame
}.

Definition init (max_size : nat) : t := Make max_size [::] None.

Definition add_frame (fb : t) (f : frame) : t :=
  Make (maxlen fb) (deque_append (maxlen fb) (buffer fb) f) (reference_frame fb).

(** [np.zeros((FRAME_HEIGHT, FRAME_WIDTH), dtype=np.uint8)] *)
Definition zeros : frame := nseq FRAME_HEIGHT (nseq FRAME_WIDTH 0).

(** [np.mean(frames, axis=0).astype(np.uint8)] on equally shaped [uint8]
    arrays: the sums are exact in float64, the quotient is correctly rounded
    and lies at least [1 / size frames] below the next integer unless it is
    one, so the truncating cast yields the integer quotient. *)
Definition mean_uint8 (frames : seq frame) : frame :=
  let shape := head [::] frames in
  mkseq (fun i =>
    mkseq (fun j => (\sum_(f <- frames) pixel f i j) %/ size frames)
          (size (nth [::] shape i)))
    (size shape).

Definition get_accumulated_frame (fb : t) (accumulate_count : int) : frame :=
  if (accumulate_count <= 1)%R || nilp (buffer fb) then
    if buffer fb is _ :: _ then last zeros (buffer fb) else zeros
  else
    let count := minn `|accumulate_count| (size (buffer fb)) in
    mean_uint8 (drop (size (buffer fb) - count) (buffer fb)).

Definition set_reference (fb : t) (f : frame) : t :=
  Make (maxlen fb) (buffer fb) (Some f).

Definition clear (fb : t) : t := Make (maxlen fb) [::] None.

End FrameBuffer.

(** ** TcpServer (TcpServer.py): the packet decoder *)

Module TcpServer.

Notation byte := Init.Byte.byte.

Inductive kind := FrameKind | PoseKind.

(** What the read loop hands to [_process_frame_data] (kind 0) or to
    [_process_coordinate_data] (kind 1). *)
Record RawPacket := Packet { pkt_kind : kind; payload : seq byte }.

(** One big-endian [u32] of [struct.unpack("!II", ...)]. *)
Definition u32_be (b : seq byte) : nat :=
  foldl (fun acc c => acc * 256 + Strings.Byte.to_nat c)%N 0%N (take 4 b).

(** The [while] loop of [_process_data_packets]; every round removes at
    least the 8 header bytes, so [size buf] rounds are enough. *)
Fixpoint process_loop (fuel : nat) (buf : seq byte) : seq RawPacket * seq byte :=
  if fuel is fuel'.+1 then
    if (8 <= size buf)%N then
      let packet_type := u32_be buf in
      let packet_size := u32_be (drop 4 buf) in
      if (size buf < 8 + packet_size)%N then ([::], buf)
      else
        let packet_data := take packet_size (drop 8 buf) in
        let: (out, rest) := process_loop fuel' (drop (8 + packet_size) buf) in
        (match packet_type with
         | 0%N => Packet FrameKind packet_data :: out
         | 1%N => Packet PoseKind packet_data :: out
         | _ => out
         end, rest)
    else ([::], buf)
  else ([::], buf).

Definition _process_data_packets (buf : seq byte) : seq RawPacket * seq byte :=
  process_loop (size buf) buf.

(** The signals a packet leads to.  The float64 contents are not decoded
    here; what is kept is which signal is emitted and from which bytes.
    [np.frombuffer] raises on a length that is not a multiple of 8, which
    both handlers catch and log. *)
Inductive signal (F : Type) :=
| connectionQuality (delay_ms : F)
| dataReceived (data : seq byte)
| coordinateReceived (data : seq byte)
| logFrameError
| logCoordinateError.
Arguments dataReceived {F}.
Arguments coordinateReceived {F}.
Arguments logFrameError {F}.
Arguments logCoordinateError {F}.

Definition _process_frame_data (F : Type) (data : seq byte) : seq (signal F) :=
  if (size data %% 8 != 0)%N then [:: logFrameError]
  else if (size data %/ 8 != FRAME_WIDTH * FRAME_HEIGHT)%N then [::]
  else [:: dataReceived data].

Definition _process_coordinate_data (F : Type) (data : seq byte) : seq (signal F) :=
  if (size data %% 8 != 0)%N then [:: logCoordinateError]
  else if (7 <= size data %/ 8)%N then [:: coordinateReceived data]
  else [::].

Definition dispatch (F : Type) (p : RawPacket) : seq (signal F) :=
  match pkt_kind p with
  | FrameKind => _process_frame_data F (payload p)
  | PoseKind => _process_coordinate_data F (payload p)
  end.

Section Server.
Variable F : realFieldType.

Record t := Make {
  read_buffer : seq byte;
  last_data_time : F;
  _last_packet_time : F;
  _current_delay_ms : F
}.

(** One round of the loop in [_on_data_ready_read]: the chunk [data] read
    from the socket at time [now].  Returns the new state, the raw packets
    extracted and the signals emitted, in order. *)
Definition _on_data_ready_read (s : t) (data : seq byte) (now : F)
    : t * seq RawPacket * seq (signal F) :=
  let buf := read_buffer s ++ data in
  let delay := ((now - _last_packet_time s) * 1000%:R)%R in
  let: (pkts, rest) := _process_data_packets buf in
  (Make rest now now delay, pkts,
   connectionQuality delay :: flatten (map (dispatch F) pkts)).

(** Feeding a list of chunks, each with its arrival time. *)
Fixpoint feed_all (s : t) (chunks : seq (seq byte * F))
    : t * seq RawPacket :=
  if chunks is (data, now) :: chunks' then
    let: (s1, pkts, _) := _on_data_ready_read s data now in
    let: (s2, pkts') := feed_all s1 chunks' in
    (s2, pkts ++ pkts')
  else (s, [::]).

End Server.

(** The sending side of the protocol, which is not part of this program:
    the bytes of [struct.pack("!II", packet_type, len(data)) + data], that
    is, what [struct.unpack("!II", ...)] reads back. *)
Definition byte_of_nat (n : nat) : byte :=
  if Strings.Byte.of_nat (n %% 256) is Some b then b else Init.Byte.x00.

Definition u32_bytes (n : nat) : seq byte :=
  [:: byte_of_nat (n %/ 256 ^ 3); byte_of_nat (n %/ 256 ^ 2);
      byte_of_nat (n %/ 256); byte_of_nat n].

Definition wire_packet (packet_type : nat) (data : seq byte) : seq byte :=
  u32_bytes packet_type ++ u32_bytes (size data) ++ data.

(** A buffer that holds no complete packet: the header is not complete, or
    it announces more bytes than follow it. *)
Definition incomplete (buf : seq byte) : bool :=
  (size buf < 8)%N || (size buf < 8 + u32_be (drop 4 buf))%N.

(** What [_process_data_packets] does with one well-formed packet. *)
Definition decoded (packet_type : nat) (data : seq byte) : seq RawPacket :=
  match packet_type with
  | 0%N => [:: Packet FrameKind data]
  | 1%N => [:: Packet PoseKind data]
  | _ => [::]
  end.

End TcpServer.

(** ** TerahertzDetectorUI (TerahertzDetectorUI.py): recording session and
    time-base arbitration

    Widgets whose only role is display (labels, icons, pixmaps, the drone
    view, timer intervals) and the persistent [QSettings] are left out.  What
    the file system answers is supplied with each event in an [env]. *)

Module TerahertzDetectorUI.
Local Open Scope ring_scope.

Notation frame := FrameBuffer.frame.
Notation byte := Init.Byte.byte.

Inductive level := LOG_DEBUG | LOG_INFO | LOG_WARNING | LOG_ERROR.

Inductive command := START | STOP.

(** [sanitize_path]: every control character (below 32) and each of the
    characters less-than, greater-than, double quote, bar, question mark and
    star is replaced with an underscore. *)
Definition sanitize_path (path : seq byte) : seq byte :=
  map (fun c : byte =>
         let n := Strings.Byte.to_nat c in
         if (n < 32)%N || (n \in [:: 60; 62; 34; 124; 63; 42])%N
         then Init.Byte.x5f else c) path.

(** The characters the pattern of [sanitize_path] matches. *)
Definition forbidden (c : byte) : bool :=
  let n := Strings.Byte.to_nat c in
  (n < 32)%N || (n \in [:: 60; 62; 34; 124; 63; 42])%N.

(** The widgets of [ConnectionDialog] that the session logic reads. *)
Record ConnectionDialog := MakeDialog {
  path_edit : seq byte;
  frame_count_spin : nat;
  auto_save_check : bool;
  kalman_mode_btn : bool;
  auto_switch_check : bool
}.

Section UI.
Variable F : realFieldType.

(** A reference to a 12-element array in the store [heap]: the session
    logic shares such arrays between attributes and lists and writes into
    them in place. *)
Definition ref := nat.

(** The lists of [PlaybackController]. *)
Record PlaybackController := MakePlayback {
  frames : seq frame;
  coords : seq ref;
  fps_values : seq F;
  current_index : nat
}.

(** The messages passed to [_log], by call site. *)
Inductive msg :=
| MsgFilter (m : CoordinatePredictor.log_msg F)
| MsgKalmanMode (fixed : bool)
| MsgSentStart
| MsgSentStop
| MsgRecordFailed
| MsgNoPath
| MsgMkdirFailed
| MsgMemory (phase_start : bool) (nframes : nat)
| MsgWaitingFirstCoordinate
| MsgSaverInitFailed
| MsgSessionWithFirstFrame (c0 c1 c2 : F)
| MsgSessionCreated (c0 c1 c2 : F)
| MsgFrameProgress (n total : nat)
| MsgRecordingDone (nframes : nat)
| MsgRestorePrevious
| MsgFirstFrameCached
| MsgTargetReached (n : nat)
| MsgCoordRepeated
| MsgCoordResumed
| MsgSwitchToFixed (delay fps_diff : F)
| MsgSwitchToMeasured (delay fps_diff : F)
| MsgTimeoutForced
| MsgFirstCoordinate (c0 c1 c2 : F)
| MsgSaveFrameFailed.

Record t := Make {
  frame_buffer : FrameBuffer.t;
  data_saver : bool;
  current_frame : option frame;
  recorded_frames : seq frame;
  is_recording : bool;
  heap : seq 'cV[F]_12;
  current_coordinate : ref;
  push_fps : F;
  last_received_coord : seq F;
  coord_repeat_count : nat;
  session_started : bool;
  waiting_for_first_coordinate : bool;
  first_frame_data : option frame;
  coordinate_predictor : CoordinatePredictor.t F;
  fps_timer : bool;
  fps_cnt : nat;
  t_start : F;
  _current_delay_ms : F;
  _measured_fps : F;
  is_calibration_mode : bool;
  recording_start_time : F;
  frame_count : nat;
  record_btn : bool;
  connection_dialog : ConnectionDialog;
  playback_controller : PlaybackController;
  client_socket : bool;
  sent : seq command;
  log : seq (level * msg)
}.

(** What the environment answers during one event: the clock, whether the
    storage directory can be created, whether [DataSaver.start_session]
    succeeds, whether processing and saving the current frame raises. *)
Record env := Env {
  now : F;
  mkdir_ok : bool;
  start_session_ok : bool;
  save_frame_raises : bool
}.

(** How a method ends: normally, or with a Python exception on its way to
    the caller. *)
Inductive outcome :=
| Normal (st : t)
| Exception (st : t).

Definition state_of (o : outcome) : t :=
  match o with Normal st => st | Exception st => st end.

Definition is_normal (o : outcome) : bool :=
  if o is Normal _ then true else false.

Definition _log (st : t) (m : msg) (lvl : level) : t :=
  st <| log ::= rcons^~ (lvl, m) |>.

(** The predictor's [log_callback] is [lambda msg: self._log("...", msg, LOG_INFO)]. *)
Definition log_filter (st : t) (ms : seq (CoordinatePredictor.log_msg F)) : t :=
  foldl (fun s m => _log s (MsgFilter m) LOG_INFO) st ms.

(** [_log_memory(phase)] *)
Definition _log_memory (st : t) (phase_start : bool) : t :=
  _log st (MsgMemory phase_start (size (recorded_frames st))) LOG_INFO.

(** [_toggle_kalman_mode(checked)], the slot of [kalman_mode_btn.toggled]. *)
Definition _toggle_kalman_mode (st : t) (checked : bool) : t :=
  let: (p, ms) :=
    CoordinatePredictor.set_fps (coordinate_predictor st) (push_fps st)
                                (Some checked) in
  let st := log_filter (st <| coordinate_predictor := p |>) ms in
  _log st (MsgKalmanMode checked) LOG_INFO.

(** [connection_dialog.kalman_mode_btn.setChecked(b)]: Qt emits [toggled]
    only when the checked state changes. *)
Definition kalman_mode_btn_setChecked (st : t) (b : bool) : t :=
  if kalman_mode_btn (connection_dialog st) == b then st
  else _toggle_kalman_mode (st <| connection_dialog -> kalman_mode_btn := b |>) b.

(** [PlaybackController.set_session_data]: [1000 // int(avg_fps)] raises
    [ZeroDivisionError] when the mean truncates to zero.  The fps values are
    finite numbers here: a mean that is infinite or not a number, on which
    [int] raises as well, is outside the field [F]. *)
Definition set_session_data (st : t) (frames0 : seq frame) (coords0 : seq ref)
    (fps_values0 : seq F) : outcome :=
  let st := st <| playback_controller :=
                    MakePlayback frames0 coords0 fps_values0 (size frames0).-1 |> in
  if fps_values0 is _ :: _ then
    let avg_fps := (\sum_(v <- fps_values0) v) / (size fps_values0)%:R in
    if (-1 < avg_fps) && (avg_fps < 1) then Exception st else Normal st
  else Normal st.

(** [stop_recording()] *)
Definition stop_recording (st : t) : outcome :=
  if ~~ is_recording st then Normal st
  else
    let st := st <| is_recording := false |> <| record_btn := false |> in
    let st := if data_saver st then st <| data_saver := false |> else st in
    if recorded_frames st is _ :: _ then
      match set_session_data st (recorded_frames st)
                             (coords (playback_controller st))
                             (fps_values (playback_controller st)) with
      | Normal st =>
          let st := _log_memory st false in
          Normal (_log st (MsgRecordingDone (size (recorded_frames st))) LOG_INFO)
      | Exception st => Exception st
      end
    else if frames (playback_controller st) is _ :: _ then
      Normal (_log st MsgRestorePrevious LOG_INFO)
    else Normal st.

(** [start_recording()] *)
Definition start_recording (st : t) (e : env) : t :=
  let st := st <| playback_controller -> coords := [::] |>
               <| playback_controller -> fps_values := [::] |> in
  if nilp (path_edit (connection_dialog st)) then
    _log st MsgNoPath LOG_ERROR <| record_btn := false |>
  else
    let clean_path := sanitize_path (path_edit (connection_dialog st)) in
    let st := st <| connection_dialog -> path_edit := clean_path |> in
    if ~~ mkdir_ok e then
      _log st MsgMkdirFailed LOG_ERROR <| record_btn := false |>
    else
      let st := st <| recorded_frames := [::] |>
                   <| frame_buffer ::= FrameBuffer.clear |>
                   <| first_frame_data := None |>
                   <| data_saver := false |> in
      let st := _log_memory st true in
      let st := st <| frame_count := 0%N |>
                   <| is_recording := true |>
                   <| session_started := false |>
                   <| waiting_for_first_coordinate := true |>
                   <| recording_start_time := now e |> in
      _log st MsgWaitingFirstCoordinate LOG_INFO.

(** [on_record_clicked()], run after the record button changed state. *)
Definition on_record_clicked (st : t) (e : env) : t :=
  if record_btn st then
    let st := if client_socket st
              then _log (st <| sent ::= rcons^~ START |>) MsgSentStart LOG_INFO
              else st in
    let st := start_recording st e in
    st <| fps_cnt := 0%N |> <| t_start := now e |> <| fps_timer := true |>
  else
    let st := if client_socket st
              then _log (st <| sent ::= rcons^~ STOP |>) MsgSentStop LOG_INFO
              else st in
    let st := st <| fps_timer := false |> in
    match stop_recording st with
    | Normal st => st
    | Exception st => _log st MsgRecordFailed LOG_ERROR <| record_btn := false |>
    end.

(** [_save_current_frame()] *)
Definition _save_current_frame (st : t) (e : env) : t :=
  if data_saver st && isSome (current_frame st) && save_frame_raises e
  then _log st MsgSaveFrameFailed LOG_ERROR else st.

(** [_process_cached_first_frame(data)] *)
Definition _process_cached_first_frame (st : t) (data : frame) (e : env) : t :=
  let st := st <| frame_count := 1%N |>
               <| current_frame := Some data |>
               <| frame_buffer ::= FrameBuffer.add_frame^~ data |>
               <| recorded_frames ::= rcons^~ data |> in
  let total_frames := frame_count_spin (connection_dialog st) in
  let st := _log st (MsgFrameProgress (frame_count st) total_frames) LOG_INFO in
  _save_current_frame st e.

(** [a[:6] = coord] on a 12-element array, in place. *)
Definition assign_first6 (a : 'cV[F]_12) (coord : seq F) : 'cV[F]_12 :=
  \col_i (if (i < 6)%N then nth 0 coord i else a i 0).

(** [_create_session_with_coordinate(coord)].  The first statement writes
    into the array that [current_coordinate] refers to. *)
Definition _create_session_with_coordinate (st : t) (coord : seq F) (e : env)
    : outcome :=
  let r := current_coordinate st in
  let st := st <| heap ::= fun h => set_nth 0 h r (assign_first6 (nth 0 h r) coord) |> in
  let auto_save := auto_save_check (connection_dialog st) in
  let st := if auto_save then st <| data_saver := true |> else st in
  if auto_save && ~~ start_session_ok e then
    stop_recording (_log st MsgSaverInitFailed LOG_ERROR <| record_btn := false |>)
  else
    let st := st <| session_started := true |>
                 <| waiting_for_first_coordinate := false |> in
    let c0 := nth 0 coord 0 in
    let c1 := nth 0 coord 1 in
    let c2 := nth 0 coord 2 in
    if first_frame_data st is Some data then
      let st := _log st (MsgSessionWithFirstFrame c0 c1 c2) LOG_INFO in
      let st := _process_cached_first_frame st data e in
      Normal (st <| first_frame_data := None |>)
    else Normal (_log st (MsgSessionCreated c0 c1 c2) LOG_INFO).

(** [_handle_frame(data)], the slot of [TcpServer.dataReceived]. *)
Definition _handle_frame (st : t) (data : frame) (e : env) : t :=
  if ~~ is_recording st then st
  else
    let st := st <| fps_cnt ::= succn |> in
    if waiting_for_first_coordinate st then
      if first_frame_data st is None then
        _log (st <| first_frame_data := Some data |>
                 <| frame_buffer ::= FrameBuffer.set_reference^~ data |>)
             MsgFirstFrameCached LOG_INFO
      else st
    else
      let st := st <| frame_count ::= succn |>
                   <| current_frame := Some data |>
                   <| frame_buffer ::= FrameBuffer.add_frame^~ data |>
                   <| recorded_frames ::= rcons^~ data |> in
      let total_frames := frame_count_spin (connection_dialog st) in
      let st := _log st (MsgFrameProgress (frame_count st) total_frames) LOG_INFO in
      let st := _save_current_frame st e in
      if (total_frames <= frame_count st)%N then
        let st := _log st (MsgTargetReached (frame_count st)) LOG_INFO in
        on_record_clicked (st <| record_btn := false |>) e
      else st.

(** The two-way decision of the automatic switch, taken only under the
    guard [_measured_fps > 0]. *)
Inductive decision := ForceDeclared | AllowMeasured.

Definition arbiter_decision (delay_ms measured_fps declared_fps : F)
    : option decision :=
  if 0 < measured_fps then
    let fps_diff := `|measured_fps - declared_fps| in
    if (AUTO_SWITCH_THRESHOLD_MS < delay_ms) || (FPS_DIFF_THRESHOLD < fps_diff)
    then Some ForceDeclared else Some AllowMeasured
  else None.

(** The automatic-switch block of [_handle_coordinate]. *)
Definition auto_switch (st : t) : t :=
  if auto_switch_check (connection_dialog st) then
    let fps_diff := `|_measured_fps st - push_fps st| in
    match arbiter_decision (_current_delay_ms st) (_measured_fps st) (push_fps st) with
    | Some ForceDeclared =>
        if ~~ CoordinatePredictor.use_fixed_fps (coordinate_predictor st) then
          _log (kalman_mode_btn_setChecked st true)
               (MsgSwitchToFixed (_current_delay_ms st) fps_diff) LOG_WARNING
        else st
    | Some AllowMeasured =>
        if CoordinatePredictor.use_fixed_fps (coordinate_predictor st) then
          _log (kalman_mode_btn_setChecked st false)
               (MsgSwitchToMeasured (_current_delay_ms st) fps_diff) LOG_INFO
        else st
    | None => st
    end
  else st.

(** [np.any(np.abs(coord[:6] - self.last_received_coord) > 1e-6)] *)
Definition coord_changed (c6 last : seq F) : bool :=
  has (fun d => (10%:R ^+ 6)^-1 < d) [seq `|ab.1 - ab.2| | ab <- zip c6 last].

(** [_handle_coordinate], first block: store the declared fps, pass it to
    the filter, detect a repeated coordinate.  Returns [is_coord_updated]. *)
Definition receive_coordinate (st : t) (c6 : seq F) (fps : F) : t * bool :=
  let st := st <| push_fps := fps |> in
  let: (p, ms) := CoordinatePredictor.set_fps (coordinate_predictor st) fps None in
  let st := log_filter (st <| coordinate_predictor := p |>) ms in
  let is_coord_updated := coord_changed c6 (last_received_coord st) in
  let st :=
    if ~~ is_coord_updated then
      let st := st <| coord_repeat_count ::= succn |> in
      if coord_repeat_count st == 1%N then _log st MsgCoordRepeated LOG_DEBUG
      else st
    else
      let st := if (0 < coord_repeat_count st)%N
                then _log st MsgCoordResumed LOG_DEBUG else st in
      st <| coord_repeat_count := 0%N |> in
  (st <| last_received_coord := c6 |>, is_coord_updated).

(** Second block: run the filter and bind [current_coordinate] to the array
    returned by [get_current_state()], a fresh copy of the state vector. *)
Definition filter_coordinate (st : t) (c6 : seq F) (timestamp : F)
    (is_coord_updated : bool) : outcome :=
  match CoordinatePredictor.update (coordinate_predictor st) c6 timestamp
                                   is_coord_updated with
  | CoordinatePredictor.Raised p ms =>
      Exception (log_filter (st <| coordinate_predictor := p |>) ms)
  | CoordinatePredictor.Returned p ms =>
      let st := log_filter (st <| coordinate_predictor := p |>) ms in
      let full_state : ref := size (heap st) in
      Normal (st <| heap ::= rcons^~ (CoordinatePredictor.get_current_state p) |>
                 <| current_coordinate := full_state |>)
  end.

(** Fourth block: while the first coordinate is awaited, create the
    session with it, whatever the time elapsed since the start. *)
Definition create_session_on_first_coordinate (st : t) (c6 : seq F) (e : env)
    : outcome :=
  if waiting_for_first_coordinate st && is_recording st then
    let elapsed := now e - recording_start_time st in
    let is_timeout := 10%:R < elapsed in
    match _create_session_with_coordinate st c6 e with
    | Normal st =>
        Normal (if is_timeout then _log st MsgTimeoutForced LOG_WARNING
                else _log st (MsgFirstCoordinate (nth 0 c6 0) (nth 0 c6 1)
                                                 (nth 0 c6 2)) LOG_INFO)
    | Exception st => Exception st
    end
  else Normal st.

(** Last block: while a session is recorded, keep the pose and its fps. *)
Definition record_coordinate (st : t) (full_state : ref) (fps : F) : t :=
  if is_recording st && session_started st then
    st <| playback_controller -> coords ::= rcons^~ full_state |>
       <| playback_controller -> fps_values ::= rcons^~ fps |>
  else st.

(** [_handle_coordinate(coord, timestamp, fps, sender_ip)], the slot of
    [TcpServer.coordinateReceived]; [sender_ip] only reaches the drone view.
    The local [full_state] and the attribute [current_coordinate] name the
    same array from the second block on. *)
Definition _handle_coordinate (st : t) (coord : 12.-tuple F)
    (timestamp fps : F) (e : env) : outcome :=
  let c6 := take 6 coord in
  let: (st, is_coord_updated) := receive_coordinate st c6 fps in
  match filter_coordinate st c6 timestamp is_coord_updated with
  | Normal st =>
      let full_state := current_coordinate st in
      let st := auto_switch st in
      match create_session_on_first_coordinate st c6 e with
      | Normal st => Normal (record_coordinate st full_state fps)
      | Exception st => Exception st
      end
  | Exception st => Exception st
  end.

(** [_update_connection_quality(delay_ms)] *)
Definition _update_connection_quality (st : t) (delay_ms : F) : t :=
  st <| _current_delay_ms := delay_ms |>.

(** [_update_real_fps()], the slot of the 1 s [fps_timer]. *)
Definition _update_real_fps (st : t) (now0 : F) : t :=
  let elapsed := now0 - t_start st in
  st <| _measured_fps := if 0 < elapsed then (fps_cnt st)%:R / elapsed else 0 |>
     <| fps_cnt := 0%N |>
     <| t_start := now0 |>.

(** The events that drive the object. *)
Inductive event :=
| RecordButtonClicked (e : env)
| FrameReceived (data : frame) (e : env)
| CoordinateReceived (coord : 12.-tuple F) (timestamp fps : F) (e : env)
| ConnectionQuality (delay_ms : F)
| FpsTimerTimeout (now0 : F).

(** One event; an exception that leaves a slot is reported by Qt and the
    object lives on in the state reached.  A click toggles the checkable
    record button before [clicked] is emitted. *)
Definition step (st : t) (ev : event) : t :=
  match ev with
  | RecordButtonClicked e =>
      on_record_clicked (st <| record_btn ::= negb |>) e
  | FrameReceived data e => _handle_frame st data e
  | CoordinateReceived coord timestamp fps e =>
      state_of (_handle_coordinate st coord timestamp fps e)
  | ConnectionQuality delay_ms => _update_connection_quality st delay_ms
  | FpsTimerTimeout now0 => if fps_timer st then _update_real_fps st now0 else st
  end.

Definition run (st : t) (evs : seq event) : t := foldl step st evs.

(** The object after [__init__] and [load_settings], for the values found in
    the settings store. *)
Definition init (initial_fps : F) (kalman_mode auto_switch0 : bool)
    (path : seq byte) (target : nat) (auto_save : bool) : option t :=
  if CoordinatePredictor.init initial_fps is Some p then
    let p := p <| CoordinatePredictor.log_callback := true |>
               <| CoordinatePredictor.use_fixed_fps := kalman_mode |> in
    Some {| frame_buffer := FrameBuffer.init MAX_RECORDED_FRAMES;
            data_saver := false; current_frame := None;
            recorded_frames := [::]; is_recording := false;
            heap := [:: 0]; current_coordinate := 0%N;
            push_fps := 30%:R; last_received_coord := nseq 6 0;
            coord_repeat_count := 0; session_started := false;
            waiting_for_first_coordinate := false; first_frame_data := None;
            coordinate_predictor := p;
            fps_timer := false; fps_cnt := 0; t_start := 0;
            _current_delay_ms := 0; _measured_fps := 0;
            is_calibration_mode := false; recording_start_time := 0;
            frame_count := 0; record_btn := false;
            connection_dialog :=
              MakeDialog path target auto_save kalman_mode auto_switch0;
            playback_controller := MakePlayback [::] [::] [::] 0;
            client_socket := false; sent := [::]; log := [::] |}
  else None.

End UI.
Arguments MsgKalmanMode {F}.
Arguments MsgSentStart {F}.
Arguments MsgSentStop {F}.
Arguments MsgRecordFailed {F}.
Arguments MsgNoPath {F}.
Arguments MsgMkdirFailed {F}.
Arguments MsgMemory {F}.
Arguments MsgWaitingFirstCoordinate {F}.
Arguments MsgSaverInitFailed {F}.
Arguments MsgFrameProgress {F}.
Arguments MsgRecordingDone {F}.
Arguments MsgRestorePrevious {F}.
Arguments MsgFirstFrameCached {F}.
Arguments MsgTargetReached {F}.
Arguments MsgCoordRepeated {F}.
Arguments MsgCoordResumed {F}.
Arguments MsgTimeoutForced {F}.
Arguments MsgSaveFrameFailed {F}.
Arguments frame_buffer {F}.
Arguments data_saver {F}.
Arguments current_frame {F}.
Arguments recorded_frames {F}.
Arguments is_recording {F}.
Arguments heap {F}.
Arguments current_coordinate {F}.
Arguments push_fps {F}.
Arguments last_received_coord {F}.
Arguments coord_repeat_count {F}.
Arguments session_started {F}.
Arguments waiting_for_first_coordinate {F}.
Arguments first_frame_data {F}.
Arguments coordinate_predictor {F}.
Arguments fps_timer {F}.
Arguments fps_cnt {F}.
Arguments t_start {F}.
Arguments _current_delay_ms {F}.
Arguments _measured_fps {F}.
Arguments is_calibration_mode {F}.
Arguments recording_start_time {F}.
Arguments frame_count {F}.
Arguments record_btn {F}.
Arguments connection_dialog {F}.
Arguments playback_controller {F}.
Arguments client_socket {F}.
Arguments sent {F}.
Arguments log {F}.
Arguments frames {F}.
Arguments coords {F}.
Arguments fps_values {F}.
Arguments current_index {F}.
Arguments now {F}.
Arguments mkdir_ok {F}.
Arguments start_session_ok {F}.
Arguments save_frame_raises {F}.
End TerahertzDetectorUI.

(** ** PlaybackController (PlaybackController.py): the moves of the index

    The object is the record [TerahertzDetectorUI.PlaybackController]; the
    timer, the play flag and the display are left out. *)

Module PlaybackController.
Section Playback.
Variable F : realFieldType.
Import TerahertzDetectorUI.
Let controller := TerahertzDetectorUI.PlaybackController F.

(** [__init__] *)
Definition init : controller := MakePlayback [::] [::] [::] 0.

(** [_next_frame()], the slot of the timer. *)
Definition _next_frame (pc : controller) : controller :=
  if nilp (frames pc) then pc
  else MakePlayback (frames pc) (coords pc) (fps_values pc)
                    ((current_index pc).+1 %% size (frames pc)).

(** [_jump_to_frame(index)], the slot of the progress slider, whose range
    starts at 0. *)
Definition _jump_to_frame (pc : controller) (index : nat) : controller :=
  if (index < size (frames pc))%N
  then MakePlayback (frames pc) (coords pc) (fps_values pc) index
  else pc.

(** [clear()] *)
Definition clear (pc : controller) : controller := MakePlayback [::] [::] [::] 0.

(** What [_update_display] shows: the frame at the index, and the pose with
    its fps, 30.0 standing in for a missing fps value. *)
Definition displayed_frame (pc : controller) : option FrameBuffer.frame :=
  if (current_index pc < size (frames pc))%N
  then Some (nth [::] (frames pc) (current_index pc)) else None.

Definition displayed_pose (pc : controller) : option (ref * F) :=
  if (current_index pc < size (coords pc))%N then
    Some (nth 0%N (coords pc) (current_index pc),
          if (current_index pc < size (fps_values pc))%N
          then nth 0%R (fps_values pc) (current_index pc) else 30%:R%R)
  else None.

(** The moves of the index, as data: a tick of the timer, a move of the
    slider. *)
Inductive playback_event := Next | Jump (index : nat).

Definition play (pc : controller) (m : playback_event) : controller :=
  match m with
  | Next => _next_frame pc
  | Jump index => _jump_to_frame pc index
  end.

End Playback.
End PlaybackController.

(** ** Concrete inputs, over the rationals *)

Module Examples.
Local Open Scope ring_scope.
Import TerahertzDetectorUI.

(** The filter as [CoordinatePredictor(initial_fps=30.0)] builds it, with the
    log callback of the main window installed. *)
Definition fresh_predictor (kalman_mode : bool) : CoordinatePredictor.t rat :=
  {| CoordinatePredictor.A := 1%:M;
     CoordinatePredictor.R := CoordinatePredictor.R_base rat;
     CoordinatePredictor.x := 0;
     CoordinatePredictor.P := CoordinatePredictor.P_init rat;
     CoordinatePredictor.last_update_time := None;
     CoordinatePredictor.state_history := [::];
     CoordinatePredictor.current_fps := 30%:R;
     CoordinatePredictor.default_dt := 1 / 30%:R;
     CoordinatePredictor.use_fixed_fps := kalman_mode;
     CoordinatePredictor.log_callback := true |}.

Definition storage_path : seq byte := [:: Init.Byte.x44; Init.Byte.x3a].

(** The main window after construction, for a stored filter mode and a
    stored automatic-switch setting. *)
Definition fresh_ui (kalman_mode auto_switch0 : bool) : TerahertzDetectorUI.t rat :=
  {| frame_buffer := FrameBuffer.init MAX_RECORDED_FRAMES;
     data_saver := false; current_frame := None;
     recorded_frames := [::]; is_recording := false;
     heap := [:: 0]; current_coordinate := 0%N;
     push_fps := 30%:R; last_received_coord := nseq 6 0;
     coord_repeat_count := 0; session_started := false;
     waiting_for_first_coordinate := false; first_frame_data := None;
     coordinate_predictor := fresh_predictor kalman_mode;
     fps_timer := false; fps_cnt := 0; t_start := 0;
     _current_delay_ms := 0; _measured_fps := 0;
     is_calibration_mode := false; recording_start_time := 0;
     frame_count := 0; record_btn := false;
     connection_dialog :=
       MakeDialog storage_path DEFAULT_FRAME_COUNT true kalman_mode auto_switch0;
     playback_controller := MakePlayback [::] [::] [::] 0;
     client_socket := false; sent := [::]; log := [::] |}.

(** Storage that answers, at clock reading [tm]. *)
Definition env_at (tm : rat) : env rat := Env tm true true false.

Definition frame_a : frame := nseq FRAME_HEIGHT (nseq FRAME_WIDTH 10%N).
Definition frame_b : frame := nseq FRAME_HEIGHT (nseq FRAME_WIDTH 21%N).
Definition frame_c : frame := nseq FRAME_HEIGHT (nseq FRAME_WIDTH 35%N).

(** A pose packet [x = 1] and everything else zero. *)
Definition pose_x1 : 12.-tuple rat :=
  [tuple 1; 0; 0; 0; 0; 0; 0; 0; 0; 0; 0; 0].

(** Start, one frame: the first coordinate is awaited with a frame cached. *)
Definition awaiting_ui : TerahertzDetectorUI.t rat :=
  run (fresh_ui true false)
      [:: RecordButtonClicked (env_at 0); FrameReceived frame_a (env_at 1)].

(** Start, a frame, a second frame, the first coordinate: the session is
    open with one frame and one pose. *)
Definition active_ui : TerahertzDetectorUI.t rat :=
  run (fresh_ui true false)
      [:: RecordButtonClicked (env_at 0); FrameReceived frame_a (env_at 1);
          FrameReceived frame_b (env_at 2);
          CoordinateReceived pose_x1 3%:R 30%:R (env_at 3%:R)].



(** A packet of kind 0 that announces 4 payload bytes. *)
Definition header4 : seq byte :=
  [:: Init.Byte.x00; Init.Byte.x00; Init.Byte.x00; Init.Byte.x00;
      Init.Byte.x00; Init.Byte.x00; Init.Byte.x00; Init.Byte.x04].
Definition payload4 : seq byte :=
  [:: Init.Byte.x01; Init.Byte.x02; Init.Byte.x03; Init.Byte.x04].

Definition fresh_server : TcpServer.t rat := TcpServer.Make [::] 0 0 0.

(** A measurement, and a run of calls on the filter: an update, a change of
    fps, a reset, an update. *)
Definition measure_x1 : seq rat := [:: 1; 0; 0; 0; 0; 0].

Definition some_calls : seq (CoordinatePredictor.call rat) :=
  [:: CoordinatePredictor.Update measure_x1 1 true;
      CoordinatePredictor.SetFps 25%:R None;
      CoordinatePredictor.Reset;
      CoordinatePredictor.Update measure_x1 2%:R false].

(** A buffer that holds three copies of one frame. *)
Definition copies_buffer : FrameBuffer.t :=
  FrameBuffer.Make MAX_RECORDED_FRAMES (nseq 3 frame_a) None.

(** A session of two frames held for playback. *)
Definition two_frame_session : PlaybackController rat :=
  MakePlayback [:: frame_a; frame_b] [::] [::] 0.

(** The window after a pose that declared 0 fps. *)
Definition zero_fps_ui : TerahertzDetectorUI.t rat :=
  fresh_ui true false <| push_fps := 0 |>.

(** The window with a client connected, and the same after a start and one
    frame: the first coordinate is awaited with a frame cached. *)
Definition connected_ui : TerahertzDetectorUI.t rat :=
  fresh_ui true false <| client_socket := true |>.

Definition awaiting_connected_ui : TerahertzDetectorUI.t rat :=
  run connected_ui
      [:: RecordButtonClicked (env_at 0); FrameReceived frame_a (env_at 1)].

(** Storage that cannot be created. *)
Definition no_storage : env rat := Env 0 false true false.

(** A recording that holds one frame and one pose declared at half a frame
    per second. *)
Definition slow_ui : TerahertzDetectorUI.t rat :=
  fresh_ui true false <| is_recording := true |>
                      <| record_btn := true |>
                      <| recorded_frames := [:: frame_a] |>
                      <| playback_controller -> coords := [:: 0%N] |>
                      <| playback_controller -> fps_values := [:: 2%:R^-1] |>.

End Examples.

(** * Theorems *)

Local Open Scope ring_scope.

Section MatrixFacts.
Variable F : realFieldType.

Definition symmetric n (M : 'M[F]_n) : Prop := M^T = M.

(** Positive semi-definite: every quadratic form value is non-negative. *)
Definition psd n (M : 'M[F]_n) : Prop :=
  forall v : 'rV[F]_n, 0 <= (v *m M *m v^T) 0 0.

End MatrixFacts.

Section MatrixLemmas.
Variable F : realFieldType.
Implicit Types (n m : nat).

Lemma symmetric_scalar n (a : F) : symmetric (a *: 1%:M : 'M[F]_n).
Proof. by rewrite /symmetric linearZ /= trmx1. Qed.

Lemma symmetric_add n (M N : 'M[F]_n) :
  symmetric M -> symmetric N -> symmetric (M + N).
Proof. by rewrite /symmetric linearD /= => -> ->. Qed.

Lemma symmetric_congr n m (B : 'M[F]_(m, n)) (M : 'M[F]_n) :
  symmetric M -> symmetric (B *m M *m B^T).
Proof. by rewrite /symmetric !trmx_mul trmxK mulmxA => ->. Qed.

Lemma symmetric_inv n (M : 'M[F]_n) : symmetric M -> symmetric (invmx M).
Proof. by rewrite /symmetric trmx_inv => ->. Qed.

(** The value of the quadratic form of [v *m v^T] is a sum of squares. *)
Lemma dot_self n (v : 'rV[F]_n) : (v *m v^T) 0 0 = \sum_j v 0 j ^+ 2.
Proof. by rewrite mxE; apply: eq_bigr => j _; rewrite mxE expr2. Qed.

Lemma dot_self_ge0 n (v : 'rV[F]_n) : 0 <= (v *m v^T) 0 0.
Proof. by rewrite dot_self sumr_ge0 // => j _; rewrite sqr_ge0. Qed.

Lemma dot_self_eq0 n (v : 'rV[F]_n) : (v *m v^T) 0 0 = 0 -> v = 0.
Proof.
rewrite dot_self => /psumr_eq0P H0.
apply/rowP => j; rewrite mxE; apply/eqP; rewrite -sqrf_eq0; apply/eqP.
by apply: H0 => // i _; rewrite sqr_ge0.
Qed.

Lemma psd_scalar n (a : F) : 0 <= a -> psd (a *: 1%:M : 'M[F]_n).
Proof.
move=> a0 v; rewrite -scalemxAr mulmx1 -scalemxAl mxE.
by rewrite mulr_ge0 // dot_self_ge0.
Qed.

Lemma psd_add n (M N : 'M[F]_n) : psd M -> psd N -> psd (M + N).
Proof.
by move=> pM pN v; rewrite mulmxDr mulmxDl mxE addr_ge0.
Qed.

Lemma psd_congr n m (B : 'M[F]_(m, n)) (M : 'M[F]_n) :
  psd M -> psd (B *m M *m B^T).
Proof.
move=> pM v; have := pM (v *m B).
by rewrite trmx_mul !mulmxA.
Qed.

(** A positive multiple of the identity added to a positive semi-definite
    matrix is invertible. *)
Lemma psd_shift_unit n (M : 'M[F]_n) (a : F) :
  psd M -> 0 < a -> M + a *: 1%:M \in unitmx.
Proof.
move=> pM a0; rewrite -row_free_unit; apply: inj_row_free => v vS0.
have: (v *m (M + a *: 1%:M) *m v^T) 0 0 = 0 by rewrite vS0 mul0mx mxE.
rewrite mulmxDr mulmxDl mxE -scalemxAr mulmx1 -scalemxAl [in X in _ + X]mxE.
move=> /eqP; rewrite paddr_eq0 ?pM ?mulr_ge0 ?dot_self_ge0 1?ltW //.
case/andP=> _; rewrite mulf_eq0 (gt_eqF a0) /= => /eqP.
exact: dot_self_eq0.
Qed.

End MatrixLemmas.

Import CoordinatePredictor.

Section PredictorLemmas.
Variable F : realFieldType.
Implicit Types (p : t F) (m : seq F) (ts : F) (fresh : bool).

Lemma symmetric_Q : symmetric (Q F).
Proof. exact: symmetric_scalar. Qed.

Lemma symmetric_noise fresh : symmetric (noise F fresh).
Proof.
by case: fresh; rewrite /noise /R_base ?scalerA; apply: symmetric_scalar.
Qed.

Lemma symmetric_P_init : symmetric (P_init F).
Proof. exact: symmetric_scalar. Qed.

Lemma noise_scalar fresh :
  noise F fresh = (if fresh then 1 else 100%:R) *: 1%:M.
Proof. by case: fresh; rewrite /noise /R_base ?scalerA ?mulr1. Qed.

Lemma psd_Q : psd (Q F).
Proof. by apply: psd_scalar; rewrite invr_ge0 ler0n. Qed.

Lemma psd_P_init : psd (P_init F).
Proof. by apply: psd_scalar; rewrite ler0n. Qed.

(** The predicted covariance. *)
Lemma symmetric_prior (A0 P0 : 'M[F]_12) :
  symmetric P0 -> symmetric (A0 *m P0 *m A0^T + Q F).
Proof.
by move=> sP; apply: symmetric_add symmetric_Q; apply: symmetric_congr.
Qed.

Lemma psd_prior (A0 P0 : 'M[F]_12) :
  psd P0 -> psd (A0 *m P0 *m A0^T + Q F).
Proof. by move=> pP; apply: psd_add psd_Q; apply: psd_congr. Qed.

(** The innovation covariance is invertible as soon as the predicted
    covariance is positive semi-definite. *)
Lemma innovation_unit (Pp : 'M[F]_12) fresh :
  psd Pp -> H F *m Pp *m (H F)^T + noise F fresh \in unitmx.
Proof.
move=> pP; rewrite noise_scalar; apply: psd_shift_unit; first exact: psd_congr.
by case: fresh; rewrite ?ltr01 ?ltr0n.
Qed.

(** The corrected covariance, first as the code computes it, then in
    Joseph form. *)
Lemma symmetric_post (Pp : 'M[F]_12) (S : 'M[F]_6) :
  symmetric Pp -> symmetric S ->
  symmetric ((1%:M - Pp *m (H F)^T *m invmx S *m H F) *m Pp).
Proof.
move=> sP sS; rewrite /symmetric mulmxBl mul1mx linearB /=.
rewrite !trmx_mul trmxK (symmetric_inv sS) sP.
by rewrite !mulmxA.
Qed.

Lemma joseph_form (Pp : 'M[F]_12) (R1 : 'M[F]_6) :
  let S := H F *m Pp *m (H F)^T + R1 in
  let K := Pp *m (H F)^T *m invmx S in
  let G := 1%:M - K *m H F in
  symmetric Pp -> S \in unitmx ->
  G *m Pp = G *m Pp *m G^T + K *m R1 *m K^T.
Proof.
move=> S K G sP uS.
have KS : K *m S = Pp *m (H F)^T by rewrite /K mulmxKV.
have HPH : H F *m (Pp *m (H F)^T) = S - R1 by rewrite mulmxA /S addrK.
clearbody K S.
have GPH : G *m Pp *m (H F)^T = K *m R1.
  rewrite /G !mulmxBl mul1mx -!mulmxA HPH mulmxBr KS.
  by rewrite opprB addrC subrK.
rewrite {2}/G linearB /= trmx1 trmx_mul mulmxBr mulmx1.
by rewrite [G *m Pp *m (_ *m _)]mulmxA GPH addrNK.
Qed.

Lemma psd_post (Pp : 'M[F]_12) fresh :
  let S := H F *m Pp *m (H F)^T + noise F fresh in
  symmetric Pp -> psd Pp ->
  psd ((1%:M - Pp *m (H F)^T *m invmx S *m H F) *m Pp).
Proof.
move=> S sP pP; rewrite joseph_form //; first exact: innovation_unit.
apply: psd_add; apply: psd_congr => //.
rewrite noise_scalar; apply: psd_scalar.
by case: (fresh); rewrite ?ler01 ?ler0n.
Qed.

End PredictorLemmas.

Section PredictorTheorems.
Variable F : realFieldType.
Implicit Types (p : t F) (m : seq F) (ts : F) (fresh : bool).

(** One call of [update] keeps the covariance symmetric, whatever the
    measurement, the time stamp and the mode. *)
Lemma update_symmetric p m ts fresh :
  symmetric (P p) -> symmetric (P (state_of (update p m ts fresh))).
Proof.
move=> sP; rewrite /update; case: ifP => // _.
case: (choose_dt p ts) => dt msg; case: ifP => //= _.
apply: symmetric_post; first exact: symmetric_prior.
by apply: symmetric_add (symmetric_noise _ _); apply: symmetric_congr;
  apply: symmetric_prior.
Qed.

(** From a positive semi-definite covariance [np.linalg.inv] never raises. *)
Lemma update_returned p m ts fresh :
  psd (P p) -> returned (update p m ts fresh).
Proof.
move=> pP; rewrite /update; case: ifP => // _.
case: (choose_dt p ts) => dt msg.
by rewrite innovation_unit //; apply: psd_prior.
Qed.

Lemma update_psd p m ts fresh :
  symmetric (P p) -> psd (P p) -> psd (P (state_of (update p m ts fresh))).
Proof.
move=> sP pP; rewrite /update; case: ifP => // _.
case: (choose_dt p ts) => dt msg; case: ifP => //= _.
by apply: psd_post; [apply: symmetric_prior | apply: psd_prior].
Qed.

(** C5: starting from the initial covariance [P_init] (or from any symmetric
    covariance), the covariance matrix is symmetric after every call of a
    sequence of [update] calls, in exact arithmetic. *)
Theorem covariance_symmetric_after_each_update p calls :
  symmetric (P p) ->
  forall k, symmetric (P (update_all p (take k calls))).
Proof.
move=> sP k; elim: (take k calls) p sP => [|c cs IH] p sP //=.
by apply: IH; apply: update_symmetric.
Qed.

(** C9: a measurement whose length is not 6 is rejected: the call returns,
    logs the length error, and leaves the whole object (state vector,
    covariance, transition matrix, time stamp, noise covariance, history)
    as it was. *)
Theorem update_wrong_length_is_noop p m ts fresh :
  size m != 6 ->
  update p m ts fresh = Returned p (emit p [:: LogLengthError (size m)]).
Proof. by rewrite /update => ->. Qed.

(** The formulas of the predict and correct steps, as the description of the
    filter gives them. *)
Definition predicted_cov (A1 P0 : 'M[F]_12) : 'M[F]_12 :=
  A1 *m P0 *m A1^T + Q F.

Definition corrected_cov (Pp : 'M[F]_12) (R1 : 'M[F]_6) : 'M[F]_12 :=
  let K := Pp *m (H F)^T *m invmx (H F *m Pp *m (H F)^T + R1) in
  (1%:M - K *m H F) *m Pp.

(** An accepted measurement: the noise covariance stored is the one the
    freshness flag selects, and the covariance is corrected with it. *)
Lemma update_noise p m ts fresh :
  size m = 6%N ->
  let o := update p m ts fresh in
  R (state_of o) = noise F fresh /\
  (returned o ->
   P (state_of o)
   = corrected_cov (predicted_cov (A (state_of o)) (P p)) (noise F fresh)).
Proof.
move=> sm; rewrite /update sm (_ : (6 != 6)%N = false) //.
by case: (choose_dt p ts) => dt msg0; case: ifP.
Qed.

(** C8: an update with [is_coord_updated = False] stores the noise
    covariance [100 * R_base] and corrects the covariance with it; the next
    update with [is_coord_updated = True] stores and uses [R_base] again. *)
Theorem stale_noise_is_inflated_for_one_update p m ts m' ts' :
  size m = 6%N -> size m' = 6%N ->
  let o1 := update p m ts false in
  let p1 := state_of o1 in
  let o2 := update p1 m' ts' true in
  let p2 := state_of o2 in
  [/\ R p1 = 100%:R *: R_base F,
      returned o1 ->
      P p1 = corrected_cov (predicted_cov (A p1) (P p)) (100%:R *: R_base F),
      R p2 = R_base F
    & returned o2 ->
      P p2 = corrected_cov (predicted_cov (A p2) (P p1)) (R_base F)].
Proof.
move=> sm sm' o1 p1 o2 p2.
have [R1 P1] := update_noise p ts false sm.
have [R2 P2] := update_noise p1 ts' true sm'.
by split.
Qed.

End PredictorTheorems.

(** ** The corrected state is not the measurement *)

Section Innovation.
Variable F : realFieldType.
Implicit Types (p : t F) (m : seq F) (ts : F) (fresh : bool).

(** [H] reads the first six components. *)
Lemma H_mul (v : 'cV[F]_12) (i : 'I_6) :
  (H F *m v) i 0 = v (widen_ord (isT : (6 <= 12)%N) i) 0.
Proof.
rewrite mxE (bigD1 (widen_ord (isT : (6 <= 12)%N) i)) //= mxE eqxx mul1r.
rewrite big1 ?addr0 // => j ne_j; rewrite mxE.
case: eqP => [eq_ij|_]; last by rewrite mul0r.
by case/eqP: ne_j; apply: val_inj.
Qed.

(** If the observed part of the corrected state equals the measurement,
    then the measurement already equalled the prediction. *)
Lemma update_keeps_distance p m ts fresh :
  size m = 6%N -> psd (P p) ->
  let p' := state_of (update p m ts fresh) in
  H F *m x p' = vec6 m -> vec6 m = H F *m (A p' *m x p).
Proof.
move=> sm psdP; rewrite /update sm /=.
case: (choose_dt p ts) => dt msg0.
set A1 := set_A_dt _ _; set Pp := A1 *m P p *m A1^T + Q F.
set S := H F *m Pp *m (H F)^T + noise F fresh.
have uS : S \in unitmx by apply: innovation_unit; apply: psd_prior.
rewrite uS /=; set y := vec6 m - H F *m (A1 *m x p).
rewrite mulmxDr !mulmxA.
have -> : H F *m Pp *m (H F)^T = S - noise F fresh by rewrite /S addrK.
rewrite mulmxBl mulmxV // mulmxBl mul1mx addrA.
have -> : H F *m A1 *m x p + y = vec6 m by rewrite /y -mulmxA addrC subrK.
move=> /eqP; rewrite -subr_eq0 addrAC subrr sub0r oppr_eq0 noise_scalar.
rewrite -!mulmxA -scalemxAl mul1mx scaler_eq0 => /orP[|/eqP Sy0].
  by case: (fresh); rewrite ?oner_eq0 // pnatr_eq0.
have : S *m (invmx S *m y) = 0 by rewrite Sy0 mulmx0.
rewrite mulmxA mulmxV // mul1mx => /eqP; rewrite subr_eq0 => /eqP ->.
by rewrite mulmxA.
Qed.

End Innovation.

(** ** The packet decoder *)

Section DecoderLemmas.
Import TcpServer.
Local Open Scope nat_scope.
Implicit Types (buf more : seq byte) (fuel : nat).

Lemma dropl_cat (T : Type) n (s1 s2 : seq T) :
  n <= size s1 -> drop n (s1 ++ s2) = drop n s1 ++ s2.
Proof.
rewrite leq_eqVlt drop_cat => /orP[/eqP ->|->] //.
by rewrite ltnn subnn drop0 drop_size.
Qed.

Lemma u32_be_cat buf more : 4 <= size buf -> u32_be (buf ++ more) = u32_be buf.
Proof. by move=> le4; rewrite /u32_be takel_cat. Qed.

(** Any fuel that covers the buffer length gives the same result. *)
Lemma process_loop_fuel fuel1 fuel2 buf :
  size buf <= fuel1 -> size buf <= fuel2 ->
  process_loop fuel1 buf = process_loop fuel2 buf.
Proof.
elim: fuel1 fuel2 buf => [|f1 IH] [|f2] buf //=.
- by rewrite leqn0 => /eqP -> _.
- by move=> _; rewrite leqn0 => /eqP ->.
move=> le1 le2; case: ifP => // ge8; case: ifP => // /negbT; rewrite -leqNgt => full.
have lt_rest : size (drop (8 + u32_be (drop 4 buf)) buf) < size buf.
  by rewrite size_drop ltn_subrL addn_gt0 /= (leq_trans _ ge8).
by rewrite (IH f2) // -ltnS (leq_trans lt_rest).
Qed.

Lemma process_packets_unfold buf :
  _process_data_packets buf =
  if 8 <= size buf then
    if size buf < 8 + u32_be (drop 4 buf) then ([::], buf)
    else
      let: (out, rest) :=
        _process_data_packets (drop (8 + u32_be (drop 4 buf)) buf) in
      (match u32_be buf with
       | 0 => Packet FrameKind (take (u32_be (drop 4 buf)) (drop 8 buf)) :: out
       | 1 => Packet PoseKind (take (u32_be (drop 4 buf)) (drop 8 buf)) :: out
       | _ => out
       end, rest)
  else ([::], buf).
Proof.
rewrite /_process_data_packets; case E: (size buf) => [|n] //=; rewrite E.
case: ifP => // ge8; case: ifP => // _.
rewrite (@process_loop_fuel n (size (drop (8 + u32_be (drop 4 buf)) buf))) //.
by rewrite size_drop E leq_subLR addnC -addSnnS leq_addr.
Qed.

(** A header that announces more bytes than have arrived leaves the buffer
    untouched. *)
Lemma process_packets_wait buf :
  8 <= size buf < 8 + u32_be (drop 4 buf) -> _process_data_packets buf = ([::], buf).
Proof. by case/andP=> ge8 lt; rewrite process_packets_unfold ge8 lt. Qed.

(** Decoding [buf ++ more] is decoding [buf], then decoding what [buf] left
    over followed by [more]. *)
Lemma process_packets_cat buf more :
  _process_data_packets (buf ++ more) =
  let: (out1, rest1) := _process_data_packets buf in
  let: (out2, rest2) := _process_data_packets (rest1 ++ more) in
  (out1 ++ out2, rest2).
Proof.
move: {2}(size buf) (leqnn (size buf)) => n; elim: n buf => [|n IH] buf len.
  rewrite [in RHS]process_packets_unfold; move: len; rewrite leqn0 => /eqP -> /=.
  by case: (_process_data_packets _).
rewrite [_process_data_packets buf]process_packets_unfold.
case: ifP => [ge8|_]; last by case: (_process_data_packets _).
case: ifP => [_|/negbT]; first by case: (_process_data_packets _).
rewrite -leqNgt => full.
have ge4 : 4 <= size buf by rewrite (leq_trans _ ge8).
have ge4' : 4 <= size (drop 4 buf) by rewrite size_drop leq_subRL.
rewrite [_process_data_packets (buf ++ more)]process_packets_unfold.
rewrite size_cat (leq_trans ge8 (leq_addr _ _)).
rewrite (@dropl_cat _ 4) // (@dropl_cat _ 8) //.
rewrite (u32_be_cat _ ge4) (u32_be_cat _ ge4') (dropl_cat _ full).
rewrite ltnNge (leq_trans full (leq_addr _ _)) /=.
have fits : u32_be (drop 4 buf) <= size (drop 8 buf).
  by rewrite size_drop leq_subRL.
rewrite (takel_cat _ fits).
have lt_rest : size (drop (8 + u32_be (drop 4 buf)) buf) <= n.
  by rewrite -ltnS (leq_trans _ len) // size_drop ltn_subrL addn_gt0 /= (leq_trans _ ge8).
rewrite (IH _ lt_rest).
case: (_process_data_packets (drop _ buf)) => out1 rest1.
by case: (_process_data_packets (rest1 ++ more)) => out2 rest2; case: (u32_be buf) => [|[|k]].
Qed.

End DecoderLemmas.

Section DecoderTheorems.
Import TcpServer.
Variable F : realFieldType.
Implicit Types (s : TcpServer.t F) (cs : seq (seq byte * F)).

Lemma on_data_ready_read_packets s data now :
  (_on_data_ready_read s data now).1.2
  = (_process_data_packets (read_buffer s ++ data)).1.
Proof. by rewrite /_on_data_ready_read; case: (_process_data_packets _). Qed.

Lemma on_data_ready_read_buffer s data now :
  read_buffer (_on_data_ready_read s data now).1.1
  = (_process_data_packets (read_buffer s ++ data)).2.
Proof. by rewrite /_on_data_ready_read; case: (_process_data_packets _). Qed.

Lemma feed_all_cons s data now cs :
  feed_all s ((data, now) :: cs) =
  let s1 := (_on_data_ready_read s data now).1.1 in
  ((feed_all s1 cs).1, (_on_data_ready_read s data now).1.2 ++ (feed_all s1 cs).2).
Proof.
rewrite /=; case: (_on_data_ready_read s data now) => [[s1 pkts] sigs] /=.
by case: (feed_all s1 cs).
Qed.

(** Feeding chunk after chunk is feeding the concatenation. *)
Lemma feed_all_concat s c cs :
  feed_all s (c :: cs) =
  let r := _process_data_packets
             (read_buffer s ++ flatten [seq d.1 | d <- c :: cs]) in
  let last_time := (last c cs).2 in
  let prev_time := last (_last_packet_time s) [seq d.2 | d <- belast c cs] in
  (TcpServer.Make r.2 last_time last_time ((last_time - prev_time) * 1000%:R),
   r.1).
Proof.
elim: cs s c => [|c' cs IH] s [data now].
  rewrite feed_all_cons /= cats0 on_data_ready_read_packets cats0.
  by rewrite /_on_data_ready_read; case: (_process_data_packets _).
rewrite feed_all_cons; cbv zeta.
rewrite IH on_data_ready_read_buffer on_data_ready_read_packets.
rewrite -[flatten [seq d.1 | d <- (data, now) :: c' :: cs]]
         /(data ++ flatten [seq d.1 | d <- c' :: cs]).
rewrite [in RHS]catA [in RHS]process_packets_cat /_on_data_ready_read.
case: (_process_data_packets (read_buffer s ++ data)) => out1 rest1 /=.
by case: (_process_data_packets _).
Qed.

(** C2: for a byte stream split into chunks at arbitrary boundaries, feeding
    the chunks one at a time yields the same packets (kinds, payloads, order)
    and leaves the same bytes buffered as feeding the concatenation at once;
    and a header that declares more bytes than have arrived makes the decoder
    keep everything buffered and emit no packet. *)
Theorem chunked_feed_equals_whole_feed s c cs now data now' :
  let whole := flatten [seq d.1 | d <- c :: cs] in
  let chunked := feed_all s (c :: cs) in
  let single := _on_data_ready_read s whole now in
  [/\ chunked.2 = single.1.2,
      read_buffer chunked.1 = read_buffer single.1.1
    & let buf := read_buffer s ++ data in
      (8 <= size buf < 8 + u32_be (drop 4 buf))%N ->
      (_on_data_ready_read s data now').1.2 = [::] /\
      read_buffer (_on_data_ready_read s data now').1.1 = buf].
Proof.
move=> whole chunked single; split.
- by rewrite /chunked feed_all_concat on_data_ready_read_packets.
- by rewrite /chunked feed_all_concat on_data_ready_read_buffer.
move=> buf wait.
by rewrite on_data_ready_read_packets on_data_ready_read_buffer
           process_packets_wait.
Qed.

End DecoderTheorems.

(** ** The frame buffer *)

Section FrameBufferTheorems.
Import FrameBuffer.
Local Open Scope nat_scope.
Implicit Types (f : frame) (fs : seq frame) (fb : FrameBuffer.t).

Lemma is_frame_size f : is_frame f -> size f = FRAME_HEIGHT.
Proof. by case/andP=> /eqP. Qed.

Lemma is_frame_row f i :
  is_frame f -> i < FRAME_HEIGHT -> size (nth [::] f i) = FRAME_WIDTH.
Proof.
case/andP=> /eqP sz /all_nthP rows lti.
by case/andP: (rows [::] i (etrans (congr1 (leq i.+1) sz) lti)) => /eqP.
Qed.

Lemma is_frame_pixel f i j :
  is_frame f -> i < FRAME_HEIGHT -> j < FRAME_WIDTH -> pixel f i j < 256.
Proof.
move=> wf lti ltj; have szr := is_frame_row wf lti.
case/andP: wf => /eqP sz /all_nthP rows.
case/andP: (rows [::] i (etrans (congr1 (leq i.+1) sz) lti)) => _ /all_nthP px.
by apply: px; rewrite szr.
Qed.

Lemma is_frame_zeros : is_frame zeros.
Proof. by []. Qed.

(** The average of well-formed frames, pixel by pixel. *)
Lemma mean_uint8_pixel fs i j :
  all is_frame fs -> 0 < size fs -> i < FRAME_HEIGHT -> j < FRAME_WIDTH ->
  pixel (mean_uint8 fs) i j = (\sum_(f <- fs) pixel f i j) %/ size fs.
Proof.
case: fs => [|f0 fs] //= /andP[wf0 _] _ lti ltj.
rewrite /pixel /mean_uint8 /= (is_frame_size wf0) nth_mkseq //.
by rewrite nth_mkseq // (is_frame_row wf0).
Qed.

Lemma sum_pixels_bound fs i j :
  all is_frame fs -> i < FRAME_HEIGHT -> j < FRAME_WIDTH ->
  \sum_(f <- fs) pixel f i j <= 255 * size fs.
Proof.
move=> wf lti ltj; elim: fs wf => [|f fs IH] /=; first by rewrite big_nil.
case/andP=> wf0 wfs; rewrite big_cons mulnS leq_add ?IH //.
by rewrite -ltnS is_frame_pixel.
Qed.

Lemma is_frame_mean fs : all is_frame fs -> 0 < size fs -> is_frame (mean_uint8 fs).
Proof.
move=> wf pos; have wf0 : is_frame (head [::] fs) by case: fs wf pos => //= f fs /andP[].
rewrite /is_frame /mean_uint8 size_mkseq (is_frame_size wf0) eqxx andTb.
apply/(all_nthP [::]) => i; rewrite size_mkseq => lti.
rewrite nth_mkseq // size_mkseq (is_frame_row wf0) // eqxx andTb.
apply/(all_nthP 0) => j; rewrite size_mkseq => ltj.
rewrite nth_mkseq // ltn_divLR //.
by rewrite (leq_ltn_trans (sum_pixels_bound wf lti ltj)) // ltn_pmul2r.
Qed.

Lemma all_drop (T : Type) (a : pred T) n (s : seq T) : all a s -> all a (drop n s).
Proof. by rewrite -{1}(cat_take_drop n s) all_cat => /andP[]. Qed.

(** C6: with [count <= 1] or an empty buffer the most recent frame is
    returned (the zero grid when the buffer is empty); otherwise the result
    is, pixel by pixel, the average of the [min(count, len(buffer))] most
    recent frames truncated to an 8-bit value.  On the buffer [A, B, C]:
    [count = 1] gives [C], [count = 2] the average of [B] and [C],
    [count = 10] the average of all three. *)
Theorem get_accumulated_frame_spec fb (count : int) (A B C : frame) :
  [/\ (count <= 1)%R || nilp (buffer fb) ->
      get_accumulated_frame fb count = last zeros (buffer fb),
      (1 < count)%R -> ~~ nilp (buffer fb) -> all is_frame (buffer fb) ->
      let n := minn `|count| (size (buffer fb)) in
      let recent := drop (size (buffer fb) - n) (buffer fb) in
      let r := get_accumulated_frame fb count in
      [/\ size recent = n, is_frame r
        & forall i j, i < FRAME_HEIGHT -> j < FRAME_WIDTH ->
          pixel r i j = (\sum_(f <- recent) pixel f i j) %/ n]
    & buffer fb = [:: A; B; C] -> all is_frame [:: A; B; C] ->
      [/\ get_accumulated_frame fb 1 = C,
          forall i j, i < FRAME_HEIGHT -> j < FRAME_WIDTH ->
            pixel (get_accumulated_frame fb 2) i j
            = (pixel B i j + pixel C i j) %/ 2
        & forall i j, i < FRAME_HEIGHT -> j < FRAME_WIDTH ->
            pixel (get_accumulated_frame fb 10) i j
            = (pixel A i j + pixel B i j + pixel C i j) %/ 3]].
Proof.
split.
- by rewrite /get_accumulated_frame => ->; case: (buffer fb).
- move=> gt1 nonempty wf n recent r.
  have eq_r : r = mean_uint8 recent.
    by rewrite /r /get_accumulated_frame leNgt gt1 (negbTE nonempty).
  have pos_n : 0 < n.
    rewrite /n leq_min absz_gt0 gt_eqF ?(lt_trans _ gt1) //=.
    by rewrite lt0n -/(nilp _).
  have sz : size recent = n.
    by rewrite /recent size_drop subKn // /n geq_minr.
  have wfr : all is_frame recent by apply: all_drop.
  split=> //; first by rewrite eq_r is_frame_mean ?sz.
  by move=> i j lti ltj; rewrite eq_r mean_uint8_pixel ?sz.
move=> eq_buf /= /and4P[wfA wfB wfC _].
rewrite /get_accumulated_frame eq_buf /=; split=> // i j lti ltj.
- by rewrite mean_uint8_pixel /= ?wfB ?wfC // !big_cons big_nil addn0.
- by rewrite mean_uint8_pixel /= ?wfA ?wfB ?wfC // !big_cons big_nil addn0 addnA.
Qed.

End FrameBufferTheorems.

(** ** The recording session *)

(** Opening a state into its attributes; the handlers then compute. *)
Ltac open_state st :=
  let fb := fresh "fb" in let ds := fresh "ds" in let cf := fresh "cf" in
  let rf := fresh "rf" in let ir := fresh "ir" in let hp := fresh "hp" in
  let cc := fresh "cc" in let pf := fresh "pf" in let lrc := fresh "lrc" in
  let crc := fresh "crc" in let ss := fresh "ss" in let wf := fresh "wf" in
  let ffd := fresh "ffd" in let cp := fresh "cp" in let ft := fresh "ft" in
  let fc := fresh "fc" in let t0 := fresh "t0" in let dly := fresh "dly" in
  let mf := fresh "mf" in let cal := fresh "cal" in let rst := fresh "rst" in
  let cnt := fresh "cnt" in let rb := fresh "rb" in let pe := fresh "pe" in
  let spin := fresh "spin" in let asv := fresh "asv" in let kmb := fresh "kmb" in
  let asw := fresh "asw" in let pfr := fresh "pfr" in let pco := fresh "pco" in
  let pfp := fresh "pfp" in let pci := fresh "pci" in let sock := fresh "sock" in
  let sn := fresh "sn" in let lg := fresh "lg" in
  case: st => fb ds cf rf ir hp cc pf lrc crc ss wf ffd cp ft fc t0 dly mf cal
              rst cnt rb [pe spin asv kmb asw] [pfr pco pfp pci] sock sn lg.

(** Unfolding the session logic and the attribute accessors, and nothing of
    the arithmetic underneath. *)
Ltac ui_red :=
  cbv beta iota zeta delta
    [TerahertzDetectorUI.stop_recording TerahertzDetectorUI.set_session_data
     TerahertzDetectorUI._log_memory TerahertzDetectorUI._log
     TerahertzDetectorUI.start_recording TerahertzDetectorUI.on_record_clicked
     TerahertzDetectorUI._save_current_frame
     TerahertzDetectorUI._process_cached_first_frame
     TerahertzDetectorUI._create_session_with_coordinate
     TerahertzDetectorUI._handle_frame TerahertzDetectorUI.auto_switch
     TerahertzDetectorUI.kalman_mode_btn_setChecked
     TerahertzDetectorUI._toggle_kalman_mode
     TerahertzDetectorUI.receive_coordinate
     TerahertzDetectorUI.filter_coordinate
     TerahertzDetectorUI.create_session_on_first_coordinate
     TerahertzDetectorUI.record_coordinate
     TerahertzDetectorUI._update_connection_quality
     TerahertzDetectorUI._update_real_fps
     TerahertzDetectorUI.state_of TerahertzDetectorUI.is_normal
     TerahertzDetectorUI.frame_buffer TerahertzDetectorUI.data_saver
     TerahertzDetectorUI.current_frame TerahertzDetectorUI.recorded_frames
     TerahertzDetectorUI.is_recording TerahertzDetectorUI.heap
     TerahertzDetectorUI.current_coordinate TerahertzDetectorUI.push_fps
     TerahertzDetectorUI.last_received_coord
     TerahertzDetectorUI.coord_repeat_count
     TerahertzDetectorUI.session_started
     TerahertzDetectorUI.waiting_for_first_coordinate
     TerahertzDetectorUI.first_frame_data
     TerahertzDetectorUI.coordinate_predictor TerahertzDetectorUI.fps_timer
     TerahertzDetectorUI.fps_cnt TerahertzDetectorUI.t_start
     TerahertzDetectorUI._current_delay_ms TerahertzDetectorUI._measured_fps
     TerahertzDetectorUI.is_calibration_mode
     TerahertzDetectorUI.recording_start_time TerahertzDetectorUI.frame_count
     TerahertzDetectorUI.record_btn TerahertzDetectorUI.connection_dialog
     TerahertzDetectorUI.playback_controller TerahertzDetectorUI.client_socket
     TerahertzDetectorUI.sent TerahertzDetectorUI.log
     TerahertzDetectorUI.frames TerahertzDetectorUI.coords
     TerahertzDetectorUI.fps_values TerahertzDetectorUI.current_index
     TerahertzDetectorUI.path_edit TerahertzDetectorUI.frame_count_spin
     TerahertzDetectorUI.auto_save_check TerahertzDetectorUI.kalman_mode_btn
     TerahertzDetectorUI.auto_switch_check
     TerahertzDetectorUI.now TerahertzDetectorUI.mkdir_ok
     TerahertzDetectorUI.start_session_ok TerahertzDetectorUI.save_frame_raises
     apply_update constant negb andb orb isSome].

(** Case analysis on whatever a conditional or a match is stuck on. *)
Ltac split_cases :=
  repeat (match goal with
          | |- context [match ?b with true => _ | false => _ end] => case: b
          | |- context [match ?l with [::] => _ | _ :: _ => _ end] =>
              case: l => [|? ?]
          | |- context [match ?o with Some _ => _ | None => _ end] =>
              case: o => [?|]
          end; ui_red).

Section SessionLemmas.
Import TerahertzDetectorUI.
Variable F : realFieldType.
Implicit Types (st : TerahertzDetectorUI.t F) (e : env F) (data : frame).

(** The two pose series of the session. *)
Definition pose_series st : seq ref * seq F :=
  (coords (playback_controller st), fps_values (playback_controller st)).

(** What the session logic never changes outside its coordinate slot. *)
Definition filter_view st :=
  (coordinate_predictor st, kalman_mode_btn (connection_dialog st),
   auto_switch_check (connection_dialog st), push_fps st,
   _measured_fps st, _current_delay_ms st).

Definition store_view st := (heap st, current_coordinate st).

Lemma log_filterE st ms :
  log_filter st ms
  = st <| log := log st ++ [seq (LOG_INFO, MsgFilter m) | m <- ms] |>.
Proof.
elim: ms st => [|m ms IH] st /=; first by case: st => *; rewrite /= cats0.
by rewrite IH; case: st => *; rewrite /_log /= -cats1 -catA.
Qed.

(** The series and flags of a session. *)
Definition session_view st :=
  (recorded_frames st, pose_series st, first_frame_data st,
   session_started st, waiting_for_first_coordinate st).

Lemma session_view_eq st1 st2 :
  session_view st1 = session_view st2 ->
  [/\ recorded_frames st1 = recorded_frames st2,
      pose_series st1 = pose_series st2,
      first_frame_data st1 = first_frame_data st2,
      session_started st1 = session_started st2
    & waiting_for_first_coordinate st1 = waiting_for_first_coordinate st2].
Proof.
move=> eq12; split.
- exact: (congr1 (fun v => v.1.1.1.1) eq12).
- exact: (congr1 (fun v => v.1.1.1.2) eq12).
- exact: (congr1 (fun v => v.1.1.2) eq12).
- exact: (congr1 (fun v => v.1.2) eq12).
- exact: (congr1 (fun v => v.2) eq12).
Qed.

Lemma stop_recording_fields st :
  let st' := state_of (stop_recording st) in
  [/\ session_view st' = session_view st,
      filter_view st' = filter_view st,
      store_view st' = store_view st
    & is_recording st' = false].
Proof.
open_state st; case: ir; last by [].
case: ds; case: rf => [|f fs]; case: pfr => [|g gs]; case: pfp => [|v vs];
  rewrite /session_view /filter_view /store_view /pose_series; ui_red;
  by [|case: ifP].
Qed.

Lemma start_recording_fields st e :
  let st' := start_recording st e in
  [/\ pose_series st' = ([::], [::]),
      filter_view st' = filter_view st,
      store_view st' = store_view st
    & ~~ nilp (path_edit (connection_dialog st)) -> mkdir_ok e ->
      [/\ session_view st' = ([::], ([::], [::]), None, false, true),
          is_recording st' & recording_start_time st' = now e]].
Proof.
open_state st; case: e => tm mk ok sr.
rewrite /session_view /filter_view /store_view /pose_series; ui_red.
by case: (nilp pe); case: mk.
Qed.

Lemma on_record_clicked_fields st e :
  let st' := on_record_clicked st e in
  [/\ pose_series st' = (if record_btn st then ([::], [::]) else pose_series st),
      ~~ record_btn st -> session_view st' = session_view st,
      filter_view st' = filter_view st
    & store_view st' = store_view st].
Proof.
rewrite /on_record_clicked; case: ifP => _.
  set st1 := (if client_socket st then _ else st).
  have [ps fv sv _] := start_recording_fields st1 e.
  have e1 : filter_view st1 = filter_view st.
    by rewrite /st1; case: (client_socket st).
  have e2 : store_view st1 = store_view st.
    by rewrite /st1; case: (client_socket st).
  by split; [exact: ps | | exact: etrans fv e1 | exact: etrans sv e2].
set st1 := (_ <| fps_timer := false |>).
have e0 : session_view st1 = session_view st.
  by rewrite /st1; case: (client_socket st).
have e1 : filter_view st1 = filter_view st.
  by rewrite /st1; case: (client_socket st).
have e2 : store_view st1 = store_view st.
  by rewrite /st1; case: (client_socket st).
have [] := stop_recording_fields st1; rewrite e0 e1 e2.
by case: (stop_recording st1) => s' sv fv tv _;
   have [_ ps _ _ _] := session_view_eq sv;
   (split; [exact: ps | by move=> _; exact: sv | exact: fv | exact: tv]).
Qed.

Lemma on_record_clicked_start st e :
  record_btn st -> ~~ nilp (path_edit (connection_dialog st)) -> mkdir_ok e ->
  let st' := on_record_clicked st e in
  [/\ session_view st' = ([::], ([::], [::]), None, false, true),
      is_recording st' & recording_start_time st' = now e].
Proof.
move=> rb path mk; rewrite /on_record_clicked rb /=.
set st1 := (if client_socket st then _ else st).
have path1 : ~~ nilp (path_edit (connection_dialog st1)).
  by rewrite /st1; case: (client_socket st).
have [_ _ _ /(_ path1 mk) [sv rec tm]] := start_recording_fields st1 e.
by split; [exact: sv | exact: rec | exact: tm].
Qed.

Lemma handle_frame_fields st data e :
  let st' := _handle_frame st data e in
  [/\ pose_series st' = pose_series st,
      filter_view st' = filter_view st
    & store_view st' = store_view st].
Proof.
open_state st; case: e => tm mk ok sr.
rewrite /filter_view /store_view /pose_series.
case: ir; last by [].
case: wf; first by case: ffd.
case: ds; case: sr; case: sock; case: pfr => [|g gs]; case: pfp => [|v vs];
  ui_red; by split_cases.
Qed.

(** While the first coordinate is awaited, the first frame is cached and
    every later one only counts for the fps estimate. *)
Lemma handle_frame_waiting st data e :
  is_recording st -> waiting_for_first_coordinate st ->
  _handle_frame st data e =
  if first_frame_data st is None then
    _log (st <| fps_cnt ::= succn |>
             <| first_frame_data := Some data |>
             <| frame_buffer ::= FrameBuffer.set_reference^~ data |>)
         MsgFirstFrameCached LOG_INFO
  else st <| fps_cnt ::= succn |>.
Proof. by open_state st => /= -> ->; ui_red; case: ffd. Qed.

(** In an open session a frame is appended to the recorded frames, also
    when it is the one that reaches the target and stops the recording. *)
Lemma handle_frame_active st data e :
  is_recording st -> ~~ waiting_for_first_coordinate st ->
  recorded_frames (_handle_frame st data e) = rcons (recorded_frames st) data.
Proof.
open_state st; case: e => tm mk ok sr /= -> /negbTE ->.
case: ds; case: sr; case: sock; case: pfr => [|g gs]; case: pfp => [|v vs];
  ui_red; by split_cases.
Qed.

(** *** The blocks of the coordinate slot *)

Definition recording_view st :=
  (session_view st, is_recording st, recording_start_time st,
   auto_save_check (connection_dialog st)).

Definition arbiter_view st :=
  (auto_switch_check (connection_dialog st),
   kalman_mode_btn (connection_dialog st),
   _measured_fps st, _current_delay_ms st).

Lemma set_fps_fields (p : CoordinatePredictor.t F) fps (m : option bool) :
  let p' := (CoordinatePredictor.set_fps p fps m).1 in
  [/\ x p' = x p, P p' = P p, log_callback p' = log_callback p
    & use_fixed_fps p' =
      if m is Some b then (if 0 < fps then b else use_fixed_fps p)
      else use_fixed_fps p].
Proof.
rewrite /CoordinatePredictor.set_fps leNgt; case: (0 < fps) => /=;
  by case: m.
Qed.

Lemma update_mode (p : CoordinatePredictor.t F) m ts fresh :
  use_fixed_fps (CoordinatePredictor.state_of (update p m ts fresh))
  = use_fixed_fps p.
Proof.
rewrite /update; case: ifP => // _; case: (choose_dt p ts) => dt msg0.
by case: ifP.
Qed.

Lemma receive_coordinate_fields st c6 fps :
  let r := receive_coordinate st c6 fps in
  [/\ recording_view r.1 = recording_view st,
      store_view r.1 = store_view st,
      arbiter_view r.1 = arbiter_view st,
      coordinate_predictor r.1
      = (CoordinatePredictor.set_fps (coordinate_predictor st) fps None).1
    & push_fps r.1 = fps /\ r.2 = coord_changed c6 (last_received_coord st)].
Proof.
rewrite /receive_coordinate.
case: (CoordinatePredictor.set_fps _ fps None) => p1 ms1; rewrite log_filterE.
open_state st.
rewrite /recording_view /session_view /pose_series /store_view /arbiter_view.
by case: (coord_changed c6 lrc); ui_red; split_cases.
Qed.

Lemma filter_coordinate_fields st c6 ts upd :
  let o := filter_coordinate st c6 ts upd in
  let u := update (coordinate_predictor st) c6 ts upd in
  [/\ is_normal o = returned u,
      recording_view (state_of o) = recording_view st,
      arbiter_view (state_of o) = arbiter_view st,
      coordinate_predictor (state_of o) = CoordinatePredictor.state_of u
    & push_fps (state_of o) = push_fps st /\
      (returned u ->
       store_view (state_of o)
       = (rcons (heap st) (x (CoordinatePredictor.state_of u)),
          size (heap st)))].
Proof.
rewrite /filter_coordinate; case: (update _ c6 ts upd) => p2 ms2;
  by rewrite log_filterE; open_state st.
Qed.

Lemma record_coordinate_fields st r fps :
  let st' := record_coordinate st r fps in
  [/\ pose_series st' =
      (if is_recording st && session_started st
       then (rcons (pose_series st).1 r, rcons (pose_series st).2 fps)
       else pose_series st),
      recorded_frames st' = recorded_frames st,
      store_view st' = store_view st,
      filter_view st' = filter_view st
    & is_recording st' = is_recording st /\
      session_started st' = session_started st /\
      waiting_for_first_coordinate st' = waiting_for_first_coordinate st].
Proof. by open_state st; case: ir; case: ss. Qed.

Lemma toggle_kalman_mode_fields st b :
  let st' := _toggle_kalman_mode st b in
  [/\ recording_view st' = recording_view st,
      store_view st' = store_view st,
      arbiter_view st' = arbiter_view st,
      push_fps st' = push_fps st
    & coordinate_predictor st'
      = (CoordinatePredictor.set_fps (coordinate_predictor st) (push_fps st)
                                     (Some b)).1].
Proof.
rewrite /_toggle_kalman_mode.
case: (CoordinatePredictor.set_fps _ _ _) => p ms; rewrite log_filterE.
by open_state st.
Qed.

Lemma kalman_mode_btn_setChecked_fields st b :
  let st' := kalman_mode_btn_setChecked st b in
  [/\ recording_view st' = recording_view st,
      store_view st' = store_view st,
      arbiter_view st'
      = (auto_switch_check (connection_dialog st), b,
         _measured_fps st, _current_delay_ms st),
      push_fps st' = push_fps st
    & coordinate_predictor st'
      = if kalman_mode_btn (connection_dialog st) == b
        then coordinate_predictor st
        else (CoordinatePredictor.set_fps (coordinate_predictor st)
                                          (push_fps st) (Some b)).1].
Proof.
rewrite /kalman_mode_btn_setChecked; case: eqP => [<-|_]; first by open_state st.
have av' : arbiter_view (st <| connection_dialog -> kalman_mode_btn := b |>)
           = (auto_switch_check (connection_dialog st), b,
              _measured_fps st, _current_delay_ms st).
  by open_state st.
have [rv sv av pf cp] :=
  toggle_kalman_mode_fields (st <| connection_dialog -> kalman_mode_btn := b |>) b.
by split; [exact: rv | exact: sv | rewrite av | exact: pf | exact: cp].
Qed.

(** The automatic switch touches the filter's time base and the mode button
    and nothing else; the state vector and the covariance stay. *)
Lemma auto_switch_fields st :
  let st' := auto_switch st in
  [/\ recording_view st' = recording_view st,
      store_view st' = store_view st,
      push_fps st' = push_fps st,
      x (coordinate_predictor st') = x (coordinate_predictor st)
    & P (coordinate_predictor st') = P (coordinate_predictor st)].
Proof.
rewrite /auto_switch; case: ifP => // _.
case: (arbiter_decision _ _ _) => [[|]|] //; case: ifP => // _.
- have [rv sv _ pf ->] := kalman_mode_btn_setChecked_fields st true.
  split; [exact: rv | exact: sv | exact: pf | |]; case: ifP => // _;
    by have [] := set_fps_fields (coordinate_predictor st) (push_fps st) (Some true).
- have [rv sv _ pf ->] := kalman_mode_btn_setChecked_fields st false.
  split; [exact: rv | exact: sv | exact: pf | |]; case: ifP => // _;
    by have [] := set_fps_fields (coordinate_predictor st) (push_fps st) (Some false).
Qed.


(** Without a decision the filter and the button are left alone. *)
Lemma auto_switch_no_decision st :
  arbiter_decision (_current_delay_ms st) (_measured_fps st) (push_fps st) = None ->
  auto_switch st = st.
Proof. by rewrite /auto_switch => ->; case: ifP. Qed.

Lemma recording_view_eq st1 st2 :
  recording_view st1 = recording_view st2 ->
  [/\ session_view st1 = session_view st2,
      is_recording st1 = is_recording st2,
      recording_start_time st1 = recording_start_time st2
    & auto_save_check (connection_dialog st1)
      = auto_save_check (connection_dialog st2)].
Proof.
move=> eq12; split.
- exact: (congr1 (fun v => v.1.1.1) eq12).
- exact: (congr1 (fun v => v.1.1.2) eq12).
- exact: (congr1 (fun v => v.1.2) eq12).
- exact: (congr1 (fun v => v.2) eq12).
Qed.

Lemma arbiter_view_eq st1 st2 :
  arbiter_view st1 = arbiter_view st2 ->
  [/\ auto_switch_check (connection_dialog st1)
      = auto_switch_check (connection_dialog st2),
      kalman_mode_btn (connection_dialog st1)
      = kalman_mode_btn (connection_dialog st2),
      _measured_fps st1 = _measured_fps st2
    & _current_delay_ms st1 = _current_delay_ms st2].
Proof.
move=> eq12; split.
- exact: (congr1 (fun v => v.1.1.1) eq12).
- exact: (congr1 (fun v => v.1.1.2) eq12).
- exact: (congr1 (fun v => v.1.2) eq12).
- exact: (congr1 (fun v => v.2) eq12).
Qed.

Lemma filter_view_eq st1 st2 :
  filter_view st1 = filter_view st2 ->
  [/\ coordinate_predictor st1 = coordinate_predictor st2,
      kalman_mode_btn (connection_dialog st1)
      = kalman_mode_btn (connection_dialog st2)
    & push_fps st1 = push_fps st2].
Proof.
move=> eq12; split.
- exact: (congr1 (fun v => v.1.1.1.1.1) eq12).
- exact: (congr1 (fun v => v.1.1.1.1.2) eq12).
- exact: (congr1 (fun v => v.1.1.2) eq12).
Qed.

(** *** Creating the session *)

(** The clock plays no part in [_create_session_with_coordinate]. *)
Lemma create_session_clock st c6 tm tm' mk ok sr :
  _create_session_with_coordinate st c6 (Env tm mk ok sr)
  = _create_session_with_coordinate st c6 (Env tm' mk ok sr).
Proof. by []. Qed.

(** Whatever happens to the session, the coordinate block leaves the filter,
    the mode button and the two pose series alone. *)
Lemma create_session_on_first_coordinate_fields st c6 e :
  let st' := state_of (create_session_on_first_coordinate st c6 e) in
  [/\ filter_view st' = filter_view st,
      pose_series st' = pose_series st,
      current_coordinate st' = current_coordinate st
    & ~~ waiting_for_first_coordinate st ->
      create_session_on_first_coordinate st c6 e = Normal st].
Proof.
open_state st; case: e => tm mk ok sr.
rewrite /filter_view /pose_series.
case: wf; last by [].
case: ir; last by [].
case: asv; case: ok; case: ffd => [f0|]; case: sr;
  case: rf => [|f fs]; case: pfr => [|g gs]; case: pfp => [|v vs];
  ui_red; by split_cases.
Qed.

(** When the storage answers, the awaited coordinate opens the session:
    the cached first frame, if any, becomes its first frame, and the array
    [current_coordinate] refers to is overwritten in its first six places. *)
Lemma create_session_success st c6 e :
  is_recording st -> waiting_for_first_coordinate st ->
  (auto_save_check (connection_dialog st) -> start_session_ok e) ->
  exists S,
    [/\ _create_session_with_coordinate st c6 e = Normal S,
        (is_recording S, session_started S, waiting_for_first_coordinate S)
        = (true, true, false),
        recorded_frames S
        = (if first_frame_data st is Some f then rcons (recorded_frames st) f
           else recorded_frames st),
        pose_series S = pose_series st /\ filter_view S = filter_view st
      & current_coordinate S = current_coordinate st /\
        heap S = set_nth 0 (heap st) (current_coordinate st)
                   (assign_first6 (nth 0 (heap st) (current_coordinate st)) c6)].
Proof.
open_state st; case: e => tm mk ok sr /= -> ->.
rewrite /filter_view /pose_series.
case: asv; case: ok => imp; try (by have := imp isT);
  case: ffd => [f0|]; case: sr; case: ds; ui_red;
  by eexists; split; first reflexivity.
Qed.

(** *** The coordinate slot as a whole *)

Lemma handle_coordinate_stages st (coord : 12.-tuple F) ts fps e :
  let c6 := take 6 coord in
  let r1 := receive_coordinate st c6 fps in
  let o2 := filter_coordinate r1.1 c6 ts r1.2 in
  let o4 := create_session_on_first_coordinate (auto_switch (state_of o2)) c6 e in
  _handle_coordinate st coord ts fps e =
  if is_normal o2 then
    if is_normal o4 then
      Normal (record_coordinate (state_of o4)
                                (current_coordinate (state_of o2)) fps)
    else Exception (state_of o4)
  else Exception (state_of o2).
Proof.
rewrite /_handle_coordinate; case: (receive_coordinate _ _ _) => st1 upd /=.
case: (filter_coordinate _ _ _ _) => st2 //=.
by case: (create_session_on_first_coordinate _ _ _).
Qed.

Lemma size_take6 (coord : 12.-tuple F) : size (take 6 coord) = 6%N.
Proof. by rewrite size_take size_tuple. Qed.

(** The filter seen by the slot: after the first two blocks the declared
    fps is stored, the arbiter's inputs and the mode are as before; the
    automatic switch then runs unless the filter raised. *)
Lemma handle_coordinate_filter st (coord : 12.-tuple F) ts fps e :
  let c6 := take 6 coord in
  let r1 := receive_coordinate st c6 fps in
  let o2 := filter_coordinate r1.1 c6 ts r1.2 in
  let st2 := state_of o2 in
  let st' := state_of (_handle_coordinate st coord ts fps e) in
  [/\ arbiter_view st2 = arbiter_view st,
      push_fps st2 = fps,
      use_fixed_fps (coordinate_predictor st2)
      = use_fixed_fps (coordinate_predictor st),
      is_normal o2
      = returned (update (CoordinatePredictor.set_fps
                            (coordinate_predictor st) fps None).1
                         c6 ts (coord_changed c6 (last_received_coord st)))
    & filter_view st'
      = filter_view (if is_normal o2 then auto_switch st2 else st2)].
Proof.
move=> c6 r1 o2 st2 st'.
have [_ _ av1 cp1 [pf1 upd1]] := receive_coordinate_fields st c6 fps.
have [n2 _ av2 cp2 [pf2 _]] := filter_coordinate_fields r1.1 c6 ts r1.2.
split.
- by rewrite /st2 av2.
- by rewrite /st2 pf2.
- rewrite /st2 cp2 update_mode cp1.
  by have [_ _ _ ->] := set_fps_fields (coordinate_predictor st) fps None.
- by rewrite /o2 n2 cp1 upd1.
rewrite /st' handle_coordinate_stages -/c6 -/r1 -/o2.
case: (is_normal o2) => //.
have [fv _ _ _] :=
  create_session_on_first_coordinate_fields (auto_switch st2) c6 e.
case: ifP => _ //=.
by have [_ _ _ ->] := record_coordinate_fields
  (state_of (create_session_on_first_coordinate (auto_switch st2) c6 e))
  (current_coordinate st2) fps.
Qed.

(** *** Time-base arbitration *)

Lemma arbiter_decision_guard (delay measured declared : F) :
  measured <= 0 -> arbiter_decision delay measured declared = None.
Proof. by rewrite /arbiter_decision ltNge => ->. Qed.

(** A coordinate that arrives while the measured fps is not positive leaves
    mode and button as they are, whatever the delay. *)
Lemma handle_coordinate_no_decision st (coord : 12.-tuple F) ts fps e :
  _measured_fps st <= 0 ->
  let st' := state_of (_handle_coordinate st coord ts fps e) in
  use_fixed_fps (coordinate_predictor st')
  = use_fixed_fps (coordinate_predictor st) /\
  kalman_mode_btn (connection_dialog st')
  = kalman_mode_btn (connection_dialog st).
Proof.
move=> le0 st'.
have [av pf mode _ fv] := handle_coordinate_filter st coord ts fps e.
move: fv; set st2 := state_of _ in av pf mode *.
have [_ kmb2 mf2 _] := arbiter_view_eq av.
have nodec : arbiter_decision (_current_delay_ms st2) (_measured_fps st2)
                              (push_fps st2) = None.
  by rewrite mf2 arbiter_decision_guard.
rewrite (auto_switch_no_decision nodec) if_same -/st'.
by move=> /filter_view_eq[cp' kmb' _]; rewrite cp' kmb' mode kmb2.
Qed.

End SessionLemmas.

Section ArbiterTheorems.
Import TerahertzDetectorUI.
Variable F : realFieldType.
Implicit Types (st : TerahertzDetectorUI.t F) (e : env F).


(** C10: with automatic arbitration enabled, a coordinate that arrives while
    the measured fps is zero or negative takes no decision: for every delay
    the arbiter yields nothing and the filter's mode, like the mode button,
    is left as it was. *)
Theorem no_decision_without_measured_fps st (coord : 12.-tuple F)
    ts fps e delay :
  auto_switch_check (connection_dialog st) -> _measured_fps st <= 0 ->
  let st0 := _update_connection_quality st delay in
  let st' := state_of (_handle_coordinate st0 coord ts fps e) in
  [/\ arbiter_decision delay (_measured_fps st0) fps = None,
      use_fixed_fps (coordinate_predictor st')
      = use_fixed_fps (coordinate_predictor st)
    & kalman_mode_btn (connection_dialog st')
      = kalman_mode_btn (connection_dialog st)].
Proof.
move=> _ le0 st0 st'.
have le0' : _measured_fps st0 <= 0 by [].
have [m b] := handle_coordinate_no_decision coord ts fps e le0'.
by split; [exact: arbiter_decision_guard | exact: m | exact: b].
Qed.

End ArbiterTheorems.


Section SessionTheorems.
Import TerahertzDetectorUI.
Variable F : realFieldType.
Implicit Types (st : TerahertzDetectorUI.t F) (e : env F) (data : frame).

Lemma log_record_coordinate st m lvl r fps :
  record_coordinate (_log st m lvl) r fps = _log (record_coordinate st r fps) m lvl.
Proof. by open_state st; case: ir; case: ss. Qed.

(** The message that closes the creation of a session: a warning past the
    10 s, an information line before. *)
Definition first_coordinate_line (elapsed : F) (c6 : seq F) : level * msg F :=
  if 10%:R < elapsed then (LOG_WARNING, MsgTimeoutForced)
  else (LOG_INFO, MsgFirstCoordinate (nth 0 c6 0) (nth 0 c6 1) (nth 0 c6 2)).

(** The awaited coordinate, when the filter state is sound and the storage
    answers: one same session [S] for every reading of the clock, closed by
    the log line the clock selects. *)
Lemma handle_first_coordinate st (coord : 12.-tuple F) ts fps (mk ok sr : bool) :
  is_recording st -> waiting_for_first_coordinate st ->
  psd (P (coordinate_predictor st)) ->
  (auto_save_check (connection_dialog st) -> ok) ->
  let c6 := take 6 coord in
  let p2 := CoordinatePredictor.state_of
              (update (CoordinatePredictor.set_fps (coordinate_predictor st)
                                                   fps None).1
                      c6 ts (coord_changed c6 (last_received_coord st))) in
  exists S,
    [/\ forall tm,
          _handle_coordinate st coord ts fps (Env tm mk ok sr)
          = Normal (S <| log ::= rcons^~
                      (first_coordinate_line (tm - recording_start_time st) c6) |>),
        (is_recording S, session_started S, waiting_for_first_coordinate S)
        = (true, true, false),
        recorded_frames S
        = (if first_frame_data st is Some f then rcons (recorded_frames st) f
           else recorded_frames st),
        pose_series S
        = (rcons (pose_series st).1 (size (heap st)),
           rcons (pose_series st).2 fps)
      & nth 0 (heap S) (size (heap st)) = assign_first6 (x p2) c6 /\
        x (coordinate_predictor S) = x p2].
Proof.
move=> rec wait psdP imp c6 p2.
have [rv1 sv1 _ cp1 [_ upd1]] := receive_coordinate_fields st c6 fps.
set r1 := receive_coordinate st c6 fps in rv1 sv1 cp1 upd1.
have [n2 rv2 _ cp2 [_ sv2]] := filter_coordinate_fields r1.1 c6 ts r1.2.
set o2 := filter_coordinate r1.1 c6 ts r1.2 in n2 rv2 cp2 sv2.
have [_ pP _ _] := set_fps_fields (coordinate_predictor st) fps None.
move: n2 cp2 sv2; rewrite cp1 upd1 -/p2 update_returned ?pP // => n2 cp2 /(_ isT) sv2.
have [rv3 sv3 _ x3 _] := auto_switch_fields (state_of o2).
set st3 := auto_switch (state_of o2) in rv3 sv3 x3.
have rv : recording_view st3 = recording_view st by rewrite rv3 rv2 rv1.
have [sess rec3 rst3 asv3] := recording_view_eq rv.
have [rf3 ps3 ffd3 _ wait3] := session_view_eq sess.
have hp1 : heap r1.1 = heap st := congr1 fst sv1.
have [hp2 cc2] : heap (state_of o2) = rcons (heap st) (x p2) /\
                 current_coordinate (state_of o2) = size (heap st).
  by move: sv2; rewrite hp1 => sv2;
     split; [exact: (congr1 fst sv2) | exact: (congr1 snd sv2)].
have hp3 : heap st3 = rcons (heap st) (x p2).
  by rewrite -hp2; exact: (congr1 fst sv3).
have cc3 : current_coordinate st3 = size (heap st).
  by rewrite -cc2; exact: (congr1 snd sv3).
have imp3 : auto_save_check (connection_dialog st3) ->
            start_session_ok (Env (0 : F) mk ok sr) by rewrite asv3.
have [S0 [eqS flags rfS [psS fvS] [ccS hpS]]] :=
  create_session_success (take 6 coord) (etrans rec3 rec) (etrans wait3 wait) imp3.
have [cpS _ _] := filter_view_eq fvS.
exists (record_coordinate S0 (size (heap st)) fps); split.
- move=> tm; rewrite handle_coordinate_stages -/c6 -/r1 -/o2 n2 -/st3.
  rewrite /create_session_on_first_coordinate wait3 rec3 wait rec.
  rewrite [if true && true then _ else _]/=.
  rewrite (create_session_clock st3 c6 tm 0 mk ok sr) eqS.
  rewrite [is_normal _]/= [state_of _]/=.
  rewrite cc2 rst3 /first_coordinate_line.
  by case: ifP => _; rewrite log_record_coordinate.
- have [_ _ _ _ [-> [-> ->]]] := record_coordinate_fields S0 (size (heap st)) fps.
  exact: flags.
- have [_ -> _ _ _] := record_coordinate_fields S0 (size (heap st)) fps.
  by rewrite rfS rf3 ffd3.
- have [-> _ _ _ _] := record_coordinate_fields S0 (size (heap st)) fps.
  have [-> -> _] : [/\ is_recording S0 = true, session_started S0 = true
                     & waiting_for_first_coordinate S0 = false].
    by split; [exact: (congr1 (fun v => v.1.1) flags)
              | exact: (congr1 (fun v => v.1.2) flags)
              | exact: (congr1 (fun v => v.2) flags)].
  by rewrite psS ps3.
have [_ _ sv fv _] := record_coordinate_fields S0 (size (heap st)) fps.
have [-> _ _] := filter_view_eq fv.
rewrite (congr1 fst sv : heap _ = heap S0) hpS cc3 hp3 cpS x3 cp2; split=> //.
by rewrite nth_set_nth /= eqxx nth_rcons ltnn eqxx.
Qed.

(** *** What every coordinate does to the series and to the filter *)

Lemma handle_coordinate_series st (coord : 12.-tuple F) ts fps e :
  let st' := state_of (_handle_coordinate st coord ts fps e) in
  pose_series st' = pose_series st \/
  exists r, pose_series st'
            = (rcons (pose_series st).1 r, rcons (pose_series st).2 fps).
Proof.
move=> st'; pose c6 := take 6 coord.
have [rv1 _ _ _ _] := receive_coordinate_fields st c6 fps.
set r1 := receive_coordinate st c6 fps in rv1.
have [_ rv2 _ _ _] := filter_coordinate_fields r1.1 c6 ts r1.2.
set o2 := filter_coordinate r1.1 c6 ts r1.2 in rv2.
have [rv3 _ _ _ _] := auto_switch_fields (state_of o2).
have [_ ps4 _ _] :=
  create_session_on_first_coordinate_fields (auto_switch (state_of o2)) c6 e.
set o4 := create_session_on_first_coordinate _ c6 e in ps4.
have [/session_view_eq[_ ps1 _ _ _] _ _ _] := recording_view_eq rv1.
have [/session_view_eq[_ ps2 _ _ _] _ _ _] := recording_view_eq rv2.
have [/session_view_eq[_ ps3 _ _ _] _ _ _] := recording_view_eq rv3.
have ps : pose_series (state_of o4) = pose_series st by rewrite ps4 ps3 ps2 ps1.
rewrite /st' handle_coordinate_stages -/c6 -/r1 -/o2 -/o4.
case: (is_normal o2); last by left; rewrite [state_of _]/= ps2 ps1.
case: (is_normal o4); last by left.
have [-> _ _ _ _] :=
  record_coordinate_fields (state_of o4) (current_coordinate (state_of o2)) fps.
by case: ifP => _; [right; exists (current_coordinate (state_of o2)) | left];
   rewrite ps.
Qed.

Lemma handle_coordinate_cov st (coord : 12.-tuple F) ts fps e :
  let c6 := take 6 coord in
  let u := update (CoordinatePredictor.set_fps (coordinate_predictor st) fps None).1
                  c6 ts (coord_changed c6 (last_received_coord st)) in
  let st' := state_of (_handle_coordinate st coord ts fps e) in
  P (coordinate_predictor st') = P (CoordinatePredictor.state_of u).
Proof.
move=> c6 u st'.
have [_ _ _ cp1 [_ upd1]] := receive_coordinate_fields st c6 fps.
have [_ _ _ _ fv] := handle_coordinate_filter st coord ts fps e.
move: fv; rewrite -/c6.
set r1 := receive_coordinate st c6 fps in cp1 upd1 *.
have [_ _ _ cp2 _] := filter_coordinate_fields r1.1 c6 ts r1.2.
set o2 := filter_coordinate r1.1 c6 ts r1.2 in cp2 *.
move=> /filter_view_eq[-> _ _].
have [_ _ _ _ P3] := auto_switch_fields (state_of o2).
by case: (is_normal o2); rewrite ?P3 cp2 cp1 upd1.
Qed.

(** *** Reachable states and what holds in all of them *)

(** The states the object goes through from its construction under the
    events of the model, which has no event for a client that connects: the
    properties that are to hold with a client connected are stated from any
    state instead. *)
Inductive reachable : TerahertzDetectorUI.t F -> Prop :=
| reachable_init initial_fps kalman_mode auto_switch0 path target auto_save st :
    init initial_fps kalman_mode auto_switch0 path target auto_save = Some st ->
    reachable st
| reachable_step st ev : reachable st -> reachable (step st ev).


(** The covariance of the filter is symmetric positive semi-definite. *)
Definition sound st : Prop :=
  symmetric (P (coordinate_predictor st)) /\ psd (P (coordinate_predictor st)).

Definition balanced st : Prop :=
  size (pose_series st).1 = size (pose_series st).2.

Lemma step_filter_cov st ev :
  sound st -> sound (step st ev).
Proof.
case: ev => [e|data e|coord ts fps e|delay|tm] /=.
- have [_ _ /filter_view_eq[cp _ _] _] :=
    on_record_clicked_fields (st <| record_btn ::= negb |>) e.
  by rewrite /sound cp.
- have [_ /filter_view_eq[cp _ _] _] := handle_frame_fields st data e.
  by rewrite /sound cp.
- have [_ pP _ _] := set_fps_fields (coordinate_predictor st) fps None.
  rewrite /sound handle_coordinate_cov => -[sP psdP]; split.
    by apply: update_symmetric; rewrite pP.
  by apply: update_psd; rewrite pP.
- by [].
- by case: ifP.
Qed.

Lemma step_balanced st ev : balanced st -> balanced (step st ev).
Proof.
rewrite /balanced => bal; case: ev => [e|data e|coord ts fps e|delay|tm];
  rewrite /step.
- have [-> _ _ _] := on_record_clicked_fields (st <| record_btn ::= negb |>) e.
  by case: ifP.
- by have [-> _ _] := handle_frame_fields st data e.
- case: (handle_coordinate_series st coord ts fps e) => [->|[r ->]] //.
  by rewrite !size_rcons bal.
- by [].
- by case: ifP.
Qed.

Lemma init_sound_balanced initial_fps kalman_mode auto_switch0 path target
    auto_save st :
  init initial_fps kalman_mode auto_switch0 path target auto_save = Some st ->
  sound st /\ balanced st.
Proof.
rewrite /init /CoordinatePredictor.init; case: ifP => // _ [<-].
by split=> //; split; [exact: symmetric_P_init | exact: psd_P_init].
Qed.

Lemma reachable_sound_balanced st : reachable st -> sound st /\ balanced st.
Proof.
elim=> [? ? ? ? ? ? ? /init_sound_balanced //|{}st ev _ [snd bal]].
by split; [exact: step_filter_cov | exact: step_balanced].
Qed.

(** *** A coordinate in an open session *)

(** In an open session the pose appended is the array returned by
    [get_current_state()], untouched: the smoothed state. *)
Lemma handle_coordinate_active st (coord : 12.-tuple F) ts fps e :
  is_recording st -> session_started st -> ~~ waiting_for_first_coordinate st ->
  psd (P (coordinate_predictor st)) ->
  let o := _handle_coordinate st coord ts fps e in
  [/\ is_normal o,
      recorded_frames (state_of o) = recorded_frames st,
      pose_series (state_of o)
      = (rcons (pose_series st).1 (size (heap st)), rcons (pose_series st).2 fps)
    & nth 0 (heap (state_of o)) (size (heap st))
      = x (coordinate_predictor (state_of o))].
Proof.
move=> rec started /negbTE nwait psdP; pose c6 := take 6 coord.
have [rv1 sv1 _ cp1 [_ upd1]] := receive_coordinate_fields st c6 fps.
set r1 := receive_coordinate st c6 fps in rv1 sv1 cp1 upd1.
have [n2 rv2 _ cp2 [_ sv2]] := filter_coordinate_fields r1.1 c6 ts r1.2.
set o2 := filter_coordinate r1.1 c6 ts r1.2 in n2 rv2 cp2 sv2.
have [_ pP _ _] := set_fps_fields (coordinate_predictor st) fps None.
move: n2 cp2 sv2; rewrite cp1 upd1 update_returned ?pP // => n2 cp2 /(_ isT) sv2.
have [rv3 sv3 _ x3 _] := auto_switch_fields (state_of o2).
set st3 := auto_switch (state_of o2) in rv3 sv3 x3.
have rv : recording_view st3 = recording_view st by rewrite rv3 rv2 rv1.
have [sess rec3 _ _] := recording_view_eq rv.
have [rf3 ps3 _ ss3 wait3] := session_view_eq sess.
have hp1 : heap r1.1 = heap st := congr1 fst sv1.
have [hp2 cc2] :
    heap (state_of o2) = rcons (heap st) (x (coordinate_predictor (state_of o2)))
    /\ current_coordinate (state_of o2) = size (heap st).
  by move: sv2; rewrite hp1 -cp2 => sv2;
     split; [exact: (congr1 fst sv2) | exact: (congr1 snd sv2)].
have hp3 : heap st3 = rcons (heap st) (x (coordinate_predictor st3)).
  by rewrite x3 -hp2; exact: (congr1 fst sv3).
have [_ _ _ create] := create_session_on_first_coordinate_fields st3 c6 e.
rewrite /= handle_coordinate_stages -/c6 -/r1 -/o2 n2 -/st3.
rewrite create ?wait3 ?nwait // [is_normal _]/= [state_of (Normal _)]/=.
have [ps rf sv fv _] := record_coordinate_fields st3 (current_coordinate (state_of o2)) fps.
have [cp' _ _] := filter_view_eq fv.
split=> //; first by rewrite rf rf3.
  by rewrite ps rec3 ss3 rec started ps3 cc2.
by rewrite (congr1 fst sv : heap _ = heap st3) cp' hp3 nth_rcons ltnn eqxx.
Qed.

Lemma run_balanced st evs : balanced st -> balanced (run st evs).
Proof.
by elim: evs st => [|ev evs IH] st bal //=; apply: IH; apply: step_balanced.
Qed.

(** C1, amended: from any state of the window in which the pose series and
    the fps series have the same length, connected or not, the two have the
    same length after every run of record clicks, frame messages, pose
    messages, connection-quality updates and fps-timer ticks; and a click
    that starts a recording empties both, whatever the state.  In an open
    session a frame message appends one frame and leaves both pose series
    alone, and a pose message appends one entry to each pose series and
    leaves the frames alone, so the frame series follows its own count. *)
Theorem pose_and_fps_series_keep_one_length st evs :
  size (pose_series st).1 = size (pose_series st).2 ->
  let st1 := run st evs in
  [/\ size (pose_series st1).1 = size (pose_series st1).2,
      forall st0 e, ~~ record_btn st0 ->
        pose_series (step st0 (RecordButtonClicked e)) = ([::], [::]),
      forall data e,
        is_recording st1 -> ~~ waiting_for_first_coordinate st1 ->
        let st' := step st1 (FrameReceived data e) in
        recorded_frames st' = rcons (recorded_frames st1) data /\
        pose_series st' = pose_series st1
    & forall (coord : 12.-tuple F) ts fps e,
        psd (P (coordinate_predictor st1)) ->
        is_recording st1 -> session_started st1 ->
        ~~ waiting_for_first_coordinate st1 ->
        let st' := step st1 (CoordinateReceived coord ts fps e) in
        [/\ recorded_frames st' = recorded_frames st1,
            size (pose_series st').1 = (size (pose_series st1).1).+1
          & size (pose_series st').2 = (size (pose_series st1).2).+1]].
Proof.
move=> bal st1; split.
- exact: (run_balanced evs bal).
- move=> st0 e /negbTE rb; rewrite /step.
  have [-> _ _ _] := on_record_clicked_fields (st0 <| record_btn ::= negb |>) e.
  by rewrite -[record_btn (_ <| _ ::= negb |>)]/(~~ record_btn st0) rb.
- move=> data e rec nwait; rewrite /step; split.
    exact: handle_frame_active.
  by have [] := handle_frame_fields st1 data e.
move=> coord ts fps e psdP rec started nwait; rewrite /step.
have [_ rf ps _] := handle_coordinate_active coord ts fps e rec started nwait psdP.
by rewrite rf ps /= !size_rcons.
Qed.

(** C4: in any state of the window, connected or not, in which the first
    coordinate is awaited and the covariance of the filter is positive
    semi-definite (every update keeps it so), and provided the storage
    answers when automatic saving is on, the first coordinate opens the
    session whatever the time elapsed since the start: the call returns, the
    state reached is one and the same for every reading of the clock up to
    its last log line, which is a warning past 10 s and an information line
    otherwise, and in it the session is open with the pose recorded. *)
Theorem first_coordinate_accepted_for_every_elapsed_time st
    (coord : 12.-tuple F) ts fps (mk ok sr : bool) :
  psd (P (coordinate_predictor st)) ->
  is_recording st -> waiting_for_first_coordinate st ->
  (auto_save_check (connection_dialog st) -> ok) ->
  exists S,
    [/\ is_recording S, session_started S,
        ~~ waiting_for_first_coordinate S,
        size (pose_series S).1 = (size (pose_series st).1).+1
      & forall tm,
          _handle_coordinate st coord ts fps (Env tm mk ok sr)
          = Normal (S <| log ::= rcons^~
                      (if 10%:R < tm - recording_start_time st
                       then (LOG_WARNING, MsgTimeoutForced)
                       else (LOG_INFO,
                             MsgFirstCoordinate (nth 0 (take 6 coord) 0)
                               (nth 0 (take 6 coord) 1)
                               (nth 0 (take 6 coord) 2))) |>)].
Proof.
move=> psdP rec wait imp.
have [S [run_eq flags _ ps _]] :=
  handle_first_coordinate coord ts fps mk sr rec wait psdP imp.
exists S; split=> //.
- exact: (congr1 (fun v => v.1.1) flags).
- exact: (congr1 (fun v => v.1.2) flags).
- by rewrite (congr1 (fun v => v.2) flags : waiting_for_first_coordinate S = false).
- by rewrite ps size_rcons.
Qed.

(** *** Start, first frame, further frame, first coordinate *)

Lemma assign_first6_fixed (v : 'cV[F]_12) (c : seq F) :
  assign_first6 v c = v -> H F *m v = vec6 c.
Proof.
move=> fixed; apply/colP => i; rewrite H_mul [RHS]mxE -[in LHS]fixed mxE.
by rewrite /= ltn_ord.
Qed.

Lemma session_gating st e0 e1 e2 (A B : frame) (coord : 12.-tuple F)
    ts fps tm (mk sr : bool) :
  reachable st -> record_btn st = false ->
  ~~ nilp (path_edit (connection_dialog st)) -> mkdir_ok e0 ->
  let s1 := step st (RecordButtonClicked e0) in
  let s2 := step s1 (FrameReceived A e1) in
  let s3 := step s2 (FrameReceived B e2) in
  let s4 := step s3 (CoordinateReceived coord ts fps (Env tm mk true sr)) in
  [/\ first_frame_data s2 = Some A,
      s3 = s2 <| fps_cnt ::= succn |>,
      (is_recording s4, session_started s4, waiting_for_first_coordinate s4)
      = (true, true, false),
      recorded_frames s4 = [:: A] /\
      pose_series s4 = ([:: size (heap st)], [:: fps])
    & nth 0 (heap s4) (size (heap st))
      = assign_first6 (x (coordinate_predictor s4)) (take 6 coord) /\
      (x (coordinate_predictor st) = 0 -> nth 0 (take 6 coord) 0 != 0 ->
       nth 0 (heap s4) (size (heap st))
       <> get_current_state (coordinate_predictor s4))].
Proof.
move=> rst rb path mk0 s1 s2 s3 s4.
have rb' : record_btn (st <| record_btn ::= negb |>).
  by rewrite -[record_btn _]/(~~ record_btn st) rb.
have [sess1 rec1 _] := on_record_clicked_start (e := e0) rb' path mk0.
have [_ _ fv1 sv1] := on_record_clicked_fields (st <| record_btn ::= negb |>) e0.
rewrite -/(step st (RecordButtonClicked e0)) -/s1 in sess1 rec1 fv1 sv1.
have rf1 : recorded_frames s1 = [::] := congr1 (fun v => v.1.1.1.1) sess1.
have ps1 : pose_series s1 = ([::], [::]) := congr1 (fun v => v.1.1.1.2) sess1.
have ffd1 : first_frame_data s1 = None := congr1 (fun v => v.1.1.2) sess1.
have wait1 : waiting_for_first_coordinate s1 := congr1 (fun v => v.2) sess1.
have eq2 : s2 = _log (s1 <| fps_cnt ::= succn |>
                         <| first_frame_data := Some A |>
                         <| frame_buffer ::= FrameBuffer.set_reference^~ A |>)
                     MsgFirstFrameCached LOG_INFO.
  by rewrite /s2 /step handle_frame_waiting ?wait1 // ffd1.
have ffd2 : first_frame_data s2 = Some A by rewrite eq2.
have rec2 : is_recording s2 by rewrite eq2; exact: rec1.
have wait2 : waiting_for_first_coordinate s2 by rewrite eq2; exact: wait1.
have eq3 : s3 = s2 <| fps_cnt ::= succn |>.
  by rewrite /s3 /step handle_frame_waiting // ffd2.
have ffd3 : first_frame_data s3 = Some A by rewrite eq3; exact: ffd2.
have rec3 : is_recording s3 by rewrite eq3; exact: rec2.
have wait3 : waiting_for_first_coordinate s3 by rewrite eq3; exact: wait2.
have rf3 : recorded_frames s3 = [::] by rewrite eq3 eq2; exact: rf1.
have ps3 : pose_series s3 = ([::], [::]) by rewrite eq3 eq2; exact: ps1.
have hp3 : heap s3 = heap st.
  by rewrite eq3 eq2; exact: (congr1 fst sv1).
have cp3 : coordinate_predictor s3 = coordinate_predictor st.
  by have [cp1 _ _] := filter_view_eq fv1; rewrite eq3 eq2; exact: cp1.
have rst3 : reachable s3 by do 3!apply: reachable_step.
have [[_ psd3] _] := reachable_sound_balanced rst3.
have [S [run_eq flags rfS psS [hpS xS]]] :=
  handle_first_coordinate coord ts fps mk sr rec3 wait3 psd3 (fun=> isT).
have eq4 : s4 = S <| log ::= rcons^~
                 (first_coordinate_line (tm - recording_start_time s3)
                                        (take 6 coord)) |>.
  by rewrite /s4 /step run_eq.
move: rfS psS hpS xS; rewrite ffd3 rf3 ps3 hp3 cp3 /= => rfS psS hpS xS.
split=> //; rewrite ?eq4 //=; split; first by rewrite hpS xS.
move=> x0 c0; rewrite hpS /get_current_state xS => /assign_first6_fixed eqH.
have [_ pP _ _] := set_fps_fields (coordinate_predictor st) fps None.
have [x1 _ _ _] := set_fps_fields (coordinate_predictor st) fps None.
have := update_keeps_distance (size_take6 coord) _ eqH.
rewrite pP x1 x0 !mulmx0 -cp3 => /(_ psd3) /colP /(_ ord0).
by rewrite !mxE /= => /eqP; rewrite (negbTE c0).
Qed.

Lemma start_then_frame st e0 (A : frame) e1 :
  reachable st -> record_btn st = false ->
  ~~ nilp (path_edit (connection_dialog st)) -> mkdir_ok e0 ->
  let s1 := step st (RecordButtonClicked e0) in
  let s2 := step s1 (FrameReceived A e1) in
  [/\ reachable s2, is_recording s2, waiting_for_first_coordinate s2
    & first_frame_data s2 = Some A].
Proof.
move=> rst rb path mk0 s1 s2.
have rb' : record_btn (st <| record_btn ::= negb |>).
  by rewrite -[record_btn _]/(~~ record_btn st) rb.
have [sess1 rec1 _] := on_record_clicked_start (e := e0) rb' path mk0.
rewrite -/(step st (RecordButtonClicked e0)) -/s1 in sess1 rec1.
have ffd1 : first_frame_data s1 = None := congr1 (fun v => v.1.1.2) sess1.
have wait1 : waiting_for_first_coordinate s1 := congr1 (fun v => v.2) sess1.
have eq2 : s2 = _log (s1 <| fps_cnt ::= succn |>
                         <| first_frame_data := Some A |>
                         <| frame_buffer ::= FrameBuffer.set_reference^~ A |>)
                     MsgFirstFrameCached LOG_INFO.
  by rewrite /s2 /step handle_frame_waiting ?wait1 // ffd1.
split; first by do 2!apply: reachable_step.
- by rewrite eq2; exact: rec1.
- by rewrite eq2; exact: wait1.
- by rewrite eq2.
Qed.

(** The same from any state with a sound filter, connected or not. *)
Lemma start_then_frame_sound st e0 (A : frame) e1 :
  sound st -> record_btn st = false ->
  ~~ nilp (path_edit (connection_dialog st)) -> mkdir_ok e0 ->
  let s1 := step st (RecordButtonClicked e0) in
  let s2 := step s1 (FrameReceived A e1) in
  [/\ sound s2, is_recording s2, waiting_for_first_coordinate s2
    & first_frame_data s2 = Some A].
Proof.
move=> snd rb path mk0 s1 s2.
have rb' : record_btn (st <| record_btn ::= negb |>).
  by rewrite -[record_btn _]/(~~ record_btn st) rb.
have [sess1 rec1 _] := on_record_clicked_start (e := e0) rb' path mk0.
rewrite -/(step st (RecordButtonClicked e0)) -/s1 in sess1 rec1.
have ffd1 : first_frame_data s1 = None := congr1 (fun v => v.1.1.2) sess1.
have wait1 : waiting_for_first_coordinate s1 := congr1 (fun v => v.2) sess1.
have eq2 : s2 = _log (s1 <| fps_cnt ::= succn |>
                         <| first_frame_data := Some A |>
                         <| frame_buffer ::= FrameBuffer.set_reference^~ A |>)
                     MsgFirstFrameCached LOG_INFO.
  by rewrite /s2 /step handle_frame_waiting ?wait1 // ffd1.
split; first by do 2!apply: step_filter_cov.
- by rewrite eq2; exact: rec1.
- by rewrite eq2; exact: wait1.
- by rewrite eq2.
Qed.

End SessionTheorems.

(** ** The theorems at concrete inputs *)

Section Instances.
Import TerahertzDetectorUI Examples.

Lemma init_fresh_ui kalman_mode auto_switch0 :
  init 30%:R kalman_mode auto_switch0 storage_path DEFAULT_FRAME_COUNT true
  = Some (fresh_ui kalman_mode auto_switch0).
Proof. by rewrite /init /CoordinatePredictor.init pnatr_eq0. Qed.

Lemma reachable_fresh_ui kalman_mode auto_switch0 :
  reachable (fresh_ui kalman_mode auto_switch0).
Proof. exact: reachable_init (init_fresh_ui _ _). Qed.

(** The measurement carried by [pose_x1]. *)
Definition m_x1 : seq rat := [:: 1; 0; 0; 0; 0; 0].

Lemma covariance_symmetric_witness :
  symmetric (P (fresh_predictor true)) /\
  symmetric (P (update_all (fresh_predictor true)
                  (take 2 [:: (m_x1, 1, true); (m_x1, 2%:R, false);
                              ([:: 1], 3%:R, true)]))).
Proof.
split; first exact: symmetric_P_init.
by apply: covariance_symmetric_after_each_update; exact: symmetric_P_init.
Defined.

Lemma wrong_length_witness :
  size [:: 1; 2%:R; 3%:R : rat] != 6%N /\
  update (fresh_predictor true) [:: 1; 2%:R; 3%:R] 5%:R true
  = Returned (fresh_predictor true) [:: LogLengthError 3].
Proof.
split; first exact: erefl.
exact: (@update_wrong_length_is_noop rat (fresh_predictor true)
          [:: 1; 2%:R; 3%:R] 5%:R true (erefl _)).
Defined.

Lemma stale_noise_witness :
  let p1 := CoordinatePredictor.state_of (update (fresh_predictor true) m_x1 1 false) in
  let p2 := CoordinatePredictor.state_of (update p1 m_x1 2%:R true) in
  [/\ size m_x1 = 6%N, R p1 = 100%:R *: R_base rat & R p2 = R_base rat].
Proof.
have [r1 _ r2 _] :=
  @stale_noise_is_inflated_for_one_update rat (fresh_predictor true)
    m_x1 1 m_x1 2%:R (erefl _) (erefl _).
by split.
Defined.

Lemma chunking_witness :
  let stream := header4 ++ payload4 in
  let buf := header4 ++ take 2 payload4 in
  [/\ (8 <= size buf < 8 + TcpServer.u32_be (drop 4 buf))%N,
      (TcpServer._on_data_ready_read fresh_server buf 1).1.2 = [::],
      TcpServer.read_buffer (TcpServer._on_data_ready_read fresh_server buf 1).1.1
      = buf
    & (TcpServer.feed_all fresh_server
         [:: (take 3 stream, 1); (drop 3 stream, 2%:R)]).2
      = [:: TcpServer.Packet TcpServer.FrameKind payload4]].
Proof.
move=> stream buf.
have [pk _ wt] :=
  @chunked_feed_equals_whole_feed rat fresh_server (take 3 stream, 1)
    [:: (drop 3 stream, 2%:R)] 0 buf 1.
have wait : (8 <= size buf < 8 + TcpServer.u32_be (drop 4 buf))%N by [].
have [nopk kept] := wt wait.
by split=> //; rewrite pk.
Defined.

Definition three_frames : FrameBuffer.t :=
  FrameBuffer.Make MAX_RECORDED_FRAMES [:: frame_a; frame_b; frame_c] None.

Lemma accumulated_frame_witness :
  [/\ all FrameBuffer.is_frame [:: frame_a; frame_b; frame_c],
      FrameBuffer.get_accumulated_frame three_frames 1 = frame_c,
      FrameBuffer.pixel (FrameBuffer.get_accumulated_frame three_frames 2) 0 0
      = 28%N
    & FrameBuffer.pixel (FrameBuffer.get_accumulated_frame three_frames 10) 5 7
      = 22%N].
Proof.
have wf : all FrameBuffer.is_frame [:: frame_a; frame_b; frame_c] by vm_compute.
have [_ _ /(_ (erefl _) wf) [c1 c2 c3]] :=
  get_accumulated_frame_spec three_frames 2 frame_a frame_b frame_c.
by split=> //; [rewrite c2 | rewrite c3].
Defined.

(** Rounding to the nearest integer, a half going up. *)
Definition nearest (sum n : nat) : nat := ((2 * sum + n) %/ (2 * n))%N.

(** The average rounded to 8 bits, refuted: the pixels 10 and 21 average to
    15.5 and the frame returned holds 15, the pixels 21, 21 and 35 average
    to 25.67 and the frame returned holds 25; rounding gives 16 and 26. *)
Lemma accumulated_frame_truncates :
  let ab := FrameBuffer.Make MAX_RECORDED_FRAMES [:: frame_a; frame_b] None in
  let bbc := FrameBuffer.Make MAX_RECORDED_FRAMES
               [:: frame_b; frame_b; frame_c] None in
  [/\ FrameBuffer.pixel (FrameBuffer.get_accumulated_frame ab 2) 0 0 = 15%N,
      nearest (FrameBuffer.pixel frame_a 0 0 + FrameBuffer.pixel frame_b 0 0) 2
      = 16%N,
      FrameBuffer.pixel (FrameBuffer.get_accumulated_frame bbc 3) 0 0 = 25%N
    & nearest (FrameBuffer.pixel frame_b 0 0 + FrameBuffer.pixel frame_b 0 0
               + FrameBuffer.pixel frame_c 0 0) 3 = 26%N].
Proof.
move=> ab bbc.
have wf2 : all FrameBuffer.is_frame [:: frame_a; frame_b] by vm_compute.
have wf3 : all FrameBuffer.is_frame [:: frame_b; frame_b; frame_c] by vm_compute.
split.
- rewrite /FrameBuffer.get_accumulated_frame /= (mean_uint8_pixel wf2) //.
  by rewrite !big_cons big_nil.
- by [].
- rewrite /FrameBuffer.get_accumulated_frame /= (mean_uint8_pixel wf3) //.
  by rewrite !big_cons big_nil.
- by [].
Qed.

(** *** Arbitration *)



Lemma no_decision_witness :
  let st := fresh_ui false true in
  let st0 := _update_connection_quality st 150%:R in
  let st' := state_of (_handle_coordinate st0 pose_x1 1 30%:R (env_at 1)) in
  [/\ auto_switch_check (connection_dialog st), _measured_fps st <= 0,
      arbiter_decision 150%:R (_measured_fps st0) 30%:R = None
    & use_fixed_fps (coordinate_predictor st') = false].
Proof.
move=> st st0 st'.
have asw : auto_switch_check (connection_dialog st) by [].
have le0 : _measured_fps st <= 0 by rewrite -[_measured_fps _]/(0) lexx.
have [dec mode _] :=
  no_decision_without_measured_fps pose_x1 1 30%:R (env_at 1) 150%:R asw le0.
by split.
Defined.

(** *** The session *)

Lemma run_cons (st : TerahertzDetectorUI.t rat) ev evs :
  run st (ev :: evs) = run (step st ev) evs.
Proof. by []. Qed.

Lemma run_nil (st : TerahertzDetectorUI.t rat) : run st [::] = st.
Proof. by []. Qed.

Lemma active_ui_facts :
  [/\ reachable active_ui,
      (is_recording active_ui, session_started active_ui,
       waiting_for_first_coordinate active_ui) = (true, true, false),
      recorded_frames active_ui = [:: frame_a]
    & pose_series active_ui = ([:: 1%N], [:: 30%:R])].
Proof.
have [_ _ flags [rf ps] _] :=
  @session_gating rat (fresh_ui true false) (env_at 0) (env_at 1) (env_at 2)
    frame_a frame_b pose_x1 3%:R 30%:R 3%:R true false
    (reachable_fresh_ui true false) (erefl _) isT isT.
rewrite /active_ui !run_cons run_nil; split.
- by do 4!apply: reachable_step; exact: reachable_fresh_ui.
- exact: flags.
- exact: rf.
- exact: ps.
Qed.

Lemma sound_connected_ui : sound connected_ui.
Proof. by split; [exact: symmetric_P_init | exact: psd_P_init]. Qed.

Lemma series_length_witness :
  let st1 := run connected_ui
               [:: RecordButtonClicked (env_at 0); FrameReceived frame_a (env_at 1);
                   CoordinateReceived pose_x1 3%:R 30%:R (env_at 3%:R);
                   FrameReceived frame_b (env_at 4%:R)] in
  size (pose_series connected_ui).1 = size (pose_series connected_ui).2 /\
  size (pose_series st1).1 = size (pose_series st1).2.
Proof.
move=> st1.
have bal : size (pose_series connected_ui).1 = size (pose_series connected_ui).2.
  exact: erefl.
split; first exact: bal.
by have [len _ _ _] :=
  @pose_and_fps_series_keep_one_length rat connected_ui
    [:: RecordButtonClicked (env_at 0); FrameReceived frame_a (env_at 1);
        CoordinateReceived pose_x1 3%:R 30%:R (env_at 3%:R);
        FrameReceived frame_b (env_at 4%:R)] bal.
Defined.

(** The three series of equal length, refuted: an open session holding one
    frame, one pose and one fps value receives a frame and holds two frames
    for one pose. *)
Lemma frames_outgrow_poses :
  let st := active_ui in
  let st' := step st (FrameReceived frame_c (env_at 4%:R)) in
  [/\ reachable st,
      (is_recording st, session_started st, waiting_for_first_coordinate st)
      = (true, true, false),
      (size (recorded_frames st), size (pose_series st).1,
       size (pose_series st).2) = (1, 1, 1)%N
    & (size (recorded_frames st'), size (pose_series st').1,
       size (pose_series st').2) = (2, 1, 1)%N].
Proof.
cbv zeta; have [rch flags rf ps] := active_ui_facts.
have rec : is_recording active_ui := congr1 (fun v => v.1.1) flags.
have wait : waiting_for_first_coordinate active_ui = false :=
  congr1 (fun v => v.2) flags.
have rf' := handle_frame_active frame_c (env_at 4%:R) rec (negbT wait).
have [ps' _ _] := handle_frame_fields active_ui frame_c (env_at 4%:R).
split; [exact: rch | exact: flags | rewrite rf ps; exact: erefl | ].
rewrite /step rf' ps' size_rcons rf ps; exact: erefl.
Qed.

Lemma first_coordinate_witness :
  let st := awaiting_connected_ui in
  [/\ psd (P (coordinate_predictor st)), is_recording st,
      waiting_for_first_coordinate st
    & exists S,
       [/\ is_recording S, session_started S,
           ~~ waiting_for_first_coordinate S,
           size (pose_series S).1 = (size (pose_series st).1).+1
         & forall tm,
             _handle_coordinate st pose_x1 3%:R 30%:R (Env tm true true false)
             = Normal (S <| log ::= rcons^~
                         (if 10%:R < tm - recording_start_time st
                          then (LOG_WARNING, MsgTimeoutForced)
                          else (LOG_INFO,
                                MsgFirstCoordinate (nth 0 (take 6 pose_x1) 0)
                                  (nth 0 (take 6 pose_x1) 1)
                                  (nth 0 (take 6 pose_x1) 2))) |>)]].
Proof.
have [[_ psdP] rec wait _] :=
  @start_then_frame_sound rat connected_ui (env_at 0) frame_a (env_at 1)
    sound_connected_ui (erefl _) isT isT.
cbv zeta; rewrite /awaiting_connected_ui !run_cons run_nil.
split; [exact: psdP | exact: rec | exact: wait | ].
exact: (first_coordinate_accepted_for_every_elapsed_time pose_x1 3%:R 30%:R
          true false psdP rec wait (fun=> isT)).
Defined.

(** C3, at the input that shows the defect: start, a frame, a second frame,
    the first coordinate.  The first frame is cached, the second only counts
    for the fps, the session opens with the cached frame as frame 0 and one
    pose; that pose carries the received coordinate in its first six places
    and is not the state of the filter after the update. *)
Theorem first_session_pose_is_not_the_filter_state :
  let s0 := fresh_ui true false in
  let s1 := step s0 (RecordButtonClicked (env_at 0)) in
  let s2 := step s1 (FrameReceived frame_a (env_at 1)) in
  let s3 := step s2 (FrameReceived frame_b (env_at 2)) in
  let s4 := step s3 (CoordinateReceived pose_x1 3%:R 30%:R (env_at 3%:R)) in
  [/\ first_frame_data s2 = Some frame_a,
      s3 = s2 <| fps_cnt ::= succn |>,
      recorded_frames s4 = [:: frame_a] /\
      coords (playback_controller s4) = [:: size (heap s0)],
      nth 0 (heap s4) (size (heap s0))
      = assign_first6 (x (coordinate_predictor s4)) (take 6 pose_x1)
    & nth 0 (heap s4) (size (heap s0))
      <> get_current_state (coordinate_predictor s4)].
Proof.
cbv zeta.
have [ffd2 eq3 _ [rf ps] [pose0 diff]] :=
  @session_gating rat (fresh_ui true false) (env_at 0) (env_at 1) (env_at 2)
    frame_a frame_b pose_x1 3%:R 30%:R 3%:R true false
    (reachable_fresh_ui true false) (erefl _) isT isT.
split; [exact: ffd2 | exact: eq3 | | exact: pose0 | ].
  split; [exact: rf | exact: (congr1 fst ps)].
have nz : nth 0 (take 6 pose_x1) 0 != 0 :> rat.
  rewrite -[nth _ _ _]/(1); exact: oner_neq0.
exact: (diff (erefl _) nz).
Qed.

End Instances.

(** * Further properties *)

(** ** The filter under any run of calls *)

Section PredictorRuns.
Variable F : realFieldType.
Implicit Types (p q : CoordinatePredictor.t F) (c : call F) (cs : seq (call F)).

Lemma set_A_dt_twice (M : 'M[F]_12) d dt :
  set_A_dt (set_A_dt M d) dt = set_A_dt M dt.
Proof. by apply/matrixP=> i j; rewrite !mxE; case: ifP => // ->. Qed.

Lemma set_A_dt_entry (M : 'M[F]_12) dt : set_A_dt M dt ord0 (inord 6) = dt.
Proof. by rewrite mxE inordK //= eqxx. Qed.

Lemma update_A p m ts fresh :
  size m = 6%N ->
  A (state_of (update p m ts fresh)) = set_A_dt (A p) (choose_dt p ts).1.
Proof.
move=> sm; rewrite /update sm (_ : (6 != 6)%N = false) //.
by case: (choose_dt p ts) => dt msg; case: ifP.
Qed.

Lemma apply_calls_rcons p cs c :
  apply_calls p (rcons cs c) = apply_call (apply_calls p cs) c.
Proof. by rewrite /apply_calls -cats1 foldl_cat. Qed.

(** What every run of calls on a new filter keeps. *)
Definition steady p : Prop :=
  [/\ default_dt p = 1 / current_fps p,
      (size (state_history p) <= 10)%N,
      A p = set_A_dt 1%:M (A p ord0 (inord 6)),
      symmetric (P p) /\ psd (P p)
    & last_update_time p = None ->
      [/\ x p = 0, P p = P_init F & state_history p = [::]]].

Lemma pristine_init fps0 p0 : init fps0 = Some p0 -> pristine p0.
Proof. by rewrite /init; case: ifP => // _ [<-]. Qed.

Lemma steady_pristine p0 : pristine p0 -> steady p0.
Proof.
case=> Ap [xp Pp] [tp hp] dtp; split=> //.
- by rewrite hp.
- rewrite Ap; apply/matrixP=> i j; rewrite !mxE; case: ifP => // /andP[i6 /eqP ji].
  have -> : (i == j) = false.
    apply/negbTE/eqP=> ij; move/eqP: ji.
    by rewrite -ij -[X in (X == _)%N]addn0 eqn_add2l.
  have -> // : (ord0 == inord 6 :> 'I_12) = false.
  by apply/negbTE/eqP=> /(congr1 val); rewrite /= inordK.
- by rewrite Pp; split; [exact: symmetric_P_init | exact: psd_P_init].
Qed.

Lemma size_deque_append (T : Type) n (d : seq T) v :
  size (deque_append n d v) = minn (size d).+1 n.
Proof.
rewrite /deque_append size_drop size_rcons /minn.
by case: ltnP => [/ltnW/eqnP->|le]; rewrite ?subn0 // subKn.
Qed.

Lemma update_fields p m ts fresh :
  size m = 6%N ->
  let q := state_of (update p m ts fresh) in
  [/\ default_dt q = default_dt p, current_fps q = current_fps p,
      last_update_time q = Some ts,
      A q = set_A_dt (A p) (choose_dt p ts).1
    & (size (state_history q) <= 10)%N = (size (state_history p) <= 10)%N
      \/ (size (state_history q) <= 10)%N].
Proof.
move=> sm; rewrite /update sm (_ : (6 != 6)%N = false) //.
case: (choose_dt p ts) => dt msg; case: ifP => _ /=; split=> //; first last.
  by left.
by right; rewrite size_deque_append geq_minr.
Qed.

Lemma steady_call p c : steady p -> steady (apply_call p c).
Proof.
case=> dtE hist shape [symP psdP] unborn; case: c => [fps m||m ts fresh] /=.
- rewrite /set_fps; case: ifP => _ //=.
- split=> //=; first by split; [exact: symmetric_P_init | exact: psd_P_init].
- have [sm|sm] := eqVneq (size m) 6%N; last first.
    by rewrite /update sm.
  have [dq fq tq Aq hq] := update_fields p ts fresh sm.
  split=> //.
  + by rewrite dq fq.
  + by case: hq => [->|].
  + by rewrite Aq set_A_dt_entry shape set_A_dt_twice.
  + by split; [exact: update_symmetric | exact: update_psd].
  + by rewrite tq.
Qed.

Lemma steady_calls p cs : steady p -> steady (apply_calls p cs).
Proof. by elim: cs p => [|c cs IH] p // sp; apply: IH; apply: steady_call. Qed.

(** X1: a filter that starts as [__init__] leaves it never fails in
    [np.linalg.inv]: after any run of calls, with any timestamps, an update
    returns, and the covariance it leaves is positive semi-definite. *)
Theorem update_never_raises p0 cs m ts fresh :
  pristine p0 ->
  let p := apply_calls p0 cs in
  returned (update p m ts fresh) /\ psd (P (state_of (update p m ts fresh))).
Proof.
move=> /steady_pristine/(steady_calls cs)[_ _ _ [symP psdP] _] p.
by split; [exact: update_returned | exact: update_psd].
Qed.

(** X2: what every run of calls keeps: the default time step is the inverse
    of the current fps, the history holds at most 10 states, the transition
    matrix is the identity with one time step in the six velocity couplings,
    and a filter that has not been updated since its creation or its last
    reset holds the zero state and the initial covariance. *)
Theorem filter_invariants p0 cs :
  pristine p0 ->
  let p := apply_calls p0 cs in
  [/\ default_dt p = 1 / current_fps p,
      (size (state_history p) <= 10)%N,
      A p = set_A_dt 1%:M (A p ord0 (inord 6))
    & last_update_time p = None -> x p = 0 /\ P p = P_init F].
Proof.
move=> /steady_pristine/(steady_calls cs)[dtE hist shape _ unborn] p.
by split=> // /unborn[].
Qed.

(** X3: in the declared-fps mode, and at the first update in the measured
    mode, the timestamp has no influence on the estimate: two updates that
    differ in the timestamp alone leave the same state, covariance,
    transition matrix and history.  In the measured mode the time step is
    the difference of the timestamps, of whatever sign. *)
Theorem timestamp_only_matters_in_measured_mode p m ts ts' fresh :
  let q := state_of (update p m ts fresh) in
  let q' := state_of (update p m ts' fresh) in
  (use_fixed_fps p || ~~ last_update_time p ->
   [/\ x q = x q', P q = P q', A q = A q'
     & state_history q = state_history q']) /\
  (forall t0, ~~ use_fixed_fps p -> last_update_time p = Some t0 ->
   size m = 6%N -> A q ord0 (inord 6) = ts - t0).
Proof.
split=> [mode|t0 /negbTE meas last sm].
  have dtE : choose_dt p ts = choose_dt p ts'.
    by rewrite /choose_dt; case: (use_fixed_fps p) mode => //=; case: (last_update_time p).
  rewrite /update dtE; case: ifP => // _.
  by case: (choose_dt p ts') => dt msg; case: ifP.
by rewrite update_A // set_A_dt_entry /choose_dt meas last.
Qed.

Lemma update_log_callback p m ts fresh :
  log_callback (state_of (update p m ts fresh)) = log_callback p.
Proof.
rewrite /update; case: ifP => // _.
by case: (choose_dt p ts) => dt msg; case: ifP.
Qed.

(** Two objects that agree on everything but entries of [A] that the next
    update overwrites. *)
Definition same_but_A p q : Prop :=
  [/\ (R p, x p, P p) = (R q, x q, P q),
      (last_update_time p, state_history p)
      = (last_update_time q, state_history q),
      (current_fps p, default_dt p) = (current_fps q, default_dt q),
      (use_fixed_fps p, log_callback p) = (use_fixed_fps q, log_callback q)
    & forall dt, set_A_dt (A p) dt = set_A_dt (A q) dt].

Lemma same_but_A_call p q c :
  same_but_A p q -> same_but_A (apply_call p c) (apply_call q c).
Proof.
case: p q => [Ap Rp xp Pp tp hp fp dp up lp] [Aq Rq xq Pq tq hq fq dq uq lq].
case=> /= -[-> -> ->] [-> ->] [-> ->] [-> ->] AE.
case: c => [fps m||m ts fresh] /=.
- by rewrite /set_fps; case: ifP.
- by [].
- rewrite /update /=; case: ifP => // _; rewrite /choose_dt /=.
  case: uq => /=; first by rewrite AE; case: ifP => _; split=> //= dt; rewrite AE.
  case: tq => [t0|] /=; by rewrite AE; case: ifP => _; split=> //= dt; rewrite AE.
Qed.

Lemma same_but_A_calls p q cs :
  same_but_A p q -> same_but_A (apply_calls p cs) (apply_calls q cs).
Proof.
by elim: cs p q => [|c cs IH] p q // spq; apply: IH; apply: same_but_A_call.
Qed.

Lemma apply_calls_log_callback p cs :
  log_callback (apply_calls p cs) = log_callback p.
Proof.
elim: cs p => [|c cs IH] p //=; rewrite IH; case: c => [fps m||m ts fresh] //=.
  by rewrite /set_fps; case: ifP.
exact: update_log_callback.
Qed.

(** X4: [reset] makes the filter forget.  Two filters with the same fps,
    whatever calls each has gone through, give the same estimates after a
    reset followed by the same calls. *)
Theorem reset_forgets_earlier_calls p0 cs cs' later :
  pristine p0 ->
  let p := apply_calls p0 cs in
  let q := apply_calls p0 cs' in
  current_fps p = current_fps q ->
  let p' := apply_calls (reset p) later in
  let q' := apply_calls (reset q) later in
  [/\ x p' = x q', P p' = P q', R p' = R q',
      state_history p' = state_history q'
    & use_fixed_fps p' = use_fixed_fps q'].
Proof.
move=> new p q fpsE p' q'.
have [dp _ Ap _ _] := steady_calls cs (steady_pristine new).
have [dq _ Aq _ _] := steady_calls cs' (steady_pristine new).
have sim : same_but_A (reset p) (reset q).
  split=> //=; first by rewrite fpsE dp dq -/p -/q fpsE.
    by rewrite !apply_calls_log_callback.
  by move=> dt; rewrite -/p -/q Ap Aq !set_A_dt_twice.
have [[Rpq xpq Ppq] [_ hpq] _ [upq _] _] := same_but_A_calls later sim.
by split.
Qed.

End PredictorRuns.

(** ** Prediction *)

Section PredictionTheorems.
Variable F : archiRealFieldType.
Implicit Types (p : CoordinatePredictor.t F) (v : 'cV[F]_12).

(** The couplings of position and velocity that [update] writes into [A]. *)
Definition coupling : 'M[F]_12 :=
  \matrix_(i, j) ((i < 6)%N && ((j : nat) == i + 6)%N)%:R.

Lemma set_A_dt_coupling dt : set_A_dt 1%:M dt = 1%:M + dt *: coupling.
Proof.
apply/matrixP=> i j; rewrite !mxE; case: ifP => [/andP[i6 /eqP ji]|_].
  rewrite mulr1; have -> : (i == j) = false; last by rewrite add0r.
  apply/negbTE/eqP=> ij; move/eqP: ji.
  by rewrite -ij -[X in (X == _)%N]addn0 eqn_add2l.
by rewrite mulr0 addr0.
Qed.

Lemma coupling_mul v i :
  (coupling *m v) i 0 = if (i < 6)%N then v (inord (i + 6)) 0 else 0.
Proof.
rewrite mxE; case: ifP => i6; last first.
  by rewrite big1 // => j _; rewrite mxE i6 mul0r.
have lt12 : (i + 6 < 12)%N by rewrite -[12%N]/(6 + 6)%N ltn_add2r.
rewrite (bigD1 (inord (i + 6))) //= mxE i6 inordK // eqxx mul1r big1 ?addr0 //.
move=> j ne; rewrite mxE i6 /=; case: eqP => [ji|]; last by rewrite mul0r.
by case/eqP: ne; apply: val_inj; rewrite /= inordK.
Qed.

Lemma first6_step v dt :
  first6 (set_A_dt 1%:M dt *m v) = first6 v + dt *: last6 v.
Proof.
rewrite set_A_dt_coupling mulmxDl mul1mx -scalemxAl.
apply/colP=> i; rewrite [LHS]mxE [LHS]mxE [X in _ + X]mxE coupling_mul.
rewrite [RHS]mxE [X in _ = X + _]mxE [X in _ = _ + X]mxE [X in _ = _ + _ * X]mxE.
by rewrite /= ltn_ord.
Qed.

Lemma last6_step v dt : last6 (set_A_dt 1%:M dt *m v) = last6 v.
Proof.
rewrite set_A_dt_coupling mulmxDl mul1mx -scalemxAl.
apply/colP=> i; rewrite [LHS]mxE [LHS]mxE [X in _ + X]mxE coupling_mul.
have lt12 : (i + 6 < 6 + 6)%N by rewrite ltn_add2r.
by rewrite inordK // ltnNge leq_addl /= mulr0 addr0 [RHS]mxE.
Qed.

Lemma iter_step v dt n :
  let w := iter n (mulmx (set_A_dt 1%:M dt)) v in
  first6 w = first6 v + (n%:R * dt) *: last6 v /\ last6 w = last6 v.
Proof.
elim: n => [|n [IH1 IH2]] /=; first by rewrite mul0r scale0r addr0.
rewrite first6_step last6_step IH1 IH2; split=> //.
by rewrite -addrA -scalerDl -natr1 mulrDl mul1r.
Qed.

Lemma int_of_float_le0 (v : F) : (int_of_float v <= 0) = (v < 1).
Proof.
rewrite /int_of_float; case: ifP => [ge0|/negbT]; first by rewrite floor_le0.
rewrite -ltNge => lt0; rewrite (lt_trans lt0 ltr01).
by rewrite ceil_le_int; exact: ltW.
Qed.

(** X5: [predict] extrapolates on a straight line.  After any run of calls
    on a new filter, the prediction is the current position and attitude
    plus the current velocities times [steps] time steps, where [steps] is
    [future_time * current_fps] truncated and the time step is the one the
    last update used.  A product below 1 gives the current position and
    attitude, and a filter that has not been updated gives zero. *)
Theorem predict_extrapolates_linearly p0 cs future_time :
  pristine p0 ->
  let p := apply_calls p0 cs in
  let steps := int_of_float (future_time * current_fps p) in
  let dt := A p ord0 (inord 6) in
  [/\ last_update_time p -> 0 < steps ->
      predict p future_time
      = first6 (x p) + (`|steps|%:R * dt) *: last6 (x p),
      future_time * current_fps p < 1 -> predict p future_time = first6 (x p)
    & last_update_time p = None -> predict p future_time = 0].
Proof.
move=> new p steps dt.
have [_ _ shape _ unborn] := steady_calls cs (steady_pristine new).
split.
- rewrite /predict; case: (last_update_time p) => // _ _ pos.
  rewrite -/steps leNgt pos /= -/p shape.
  by have [-> _] := iter_step (x p) (A p ord0 (inord 6)) `|steps|.
- move=> lt1; rewrite /predict; case: (last_update_time p) => // _.
  by rewrite int_of_float_le0 lt1.
- move=> none; rewrite /predict none; have [-> _ _] := unborn none.
  by apply/colP=> i; rewrite !mxE.
Qed.

End PredictionTheorems.

(** ** The frame buffer over a run of frames *)

Section FrameBufferRuns.
Import FrameBuffer.
Local Open Scope nat_scope.

Lemma deque_append_drop (T : Type) n (s : seq T) v :
  deque_append n (drop (size s - n) s) v
  = drop (size (rcons s v) - n) (rcons s v).
Proof.
rewrite /deque_append -cats1 -[rcons s v]cats1.
have le_k : size s - n <= size s by rewrite leq_subr.
rewrite -(dropl_cat _ le_k) drop_drop size_drop size_cat /= addn1.
congr (drop _ _).
case: (leqP (size s) n) => [le|/ltnW le].
  by move: (le); rewrite -subn_eq0 => /eqP->; rewrite subn0 addn0.
by rewrite (subSn le_k) subKn // subSnn add1n subSn.
Qed.

(** X6: the buffer holds the most recent [maxlen] frames, oldest first:
    after any run of [add_frame] on a new buffer its content is the tail of
    the run, of length at most [maxlen]. *)
Theorem buffer_keeps_most_recent_frames n fs :
  let fb := foldl add_frame (init n) fs in
  [/\ buffer fb = drop (size fs - n) fs,
      size (buffer fb) = minn (size fs) n
    & maxlen fb = n /\ reference_frame fb = None].
Proof.
rewrite [foldl _ _ _]lock => fb.
have [bufE [mx rf]] :
  buffer fb = drop (size fs - n) fs /\ maxlen fb = n /\ reference_frame fb = None.
  rewrite /fb -lock {fb}; elim/last_ind: fs => [|fs f [IHb [IHm IHr]]] //.
  rewrite -cats1 foldl_cat /= /add_frame /= IHm IHr IHb cats1.
  by rewrite deque_append_drop.
split=> //; rewrite bufE size_drop /minn.
by case: ltnP => [/ltnW|] le; [move: le; rewrite -subn_eq0 => /eqP->; rewrite subn0 | rewrite subKn].
Qed.

(** X7: whatever the count, positive, zero or negative, and whatever the
    length of the buffer, what [get_accumulated_frame] returns is a 64 x 64
    grid of 8-bit values, provided the frames in the buffer are. *)
Theorem accumulated_frame_is_a_frame fb (count : int) :
  all is_frame (buffer fb) -> is_frame (get_accumulated_frame fb count).
Proof.
move=> wf; rewrite /get_accumulated_frame; case: ifP => [_|/norP[gt1 nonempty]].
  case: (buffer fb) wf => [|f fs] // wf.
  by move/allP: wf; apply; rewrite -[last _ _]/(last f fs) mem_last.
rewrite -ltNge in gt1; apply: is_frame_mean; first exact: all_drop.
rewrite size_drop subKn ?geq_minr // leq_min absz_gt0.
by rewrite gt_eqF ?(lt_trans _ gt1) //= lt0n -/(nilp _).
Qed.

Lemma mean_uint8_nseq k (A : frame) : 0 < k -> mean_uint8 (nseq k A) = A.
Proof.
case: k => // k _; rewrite /mean_uint8 /= size_nseq.
apply: (@eq_from_nth _ [::]); rewrite size_mkseq // => i lti.
rewrite nth_mkseq //; apply: (@eq_from_nth _ 0); rewrite size_mkseq // => j ltj.
rewrite nth_mkseq // big_cons big_nseq -/(pixel A i j).
have -> : iter k (addn (pixel A i j)) 0 = k * pixel A i j.
  by elim: k => //= k ->; rewrite mulSn.
by rewrite -mulSn mulKn.
Qed.

Lemma last_copies (T : Type) (a b : T) k : last a (nseq k.+1 b) = b.
Proof. by elim: k => //=. Qed.

(** X8: a buffer that holds copies of one frame returns that frame for
    every count: the truncating average loses nothing here. *)
Theorem accumulating_copies_returns_the_frame fb k (A : frame) (count : int) :
  0 < k -> buffer fb = nseq k A -> get_accumulated_frame fb count = A.
Proof.
case: k => // k _ bufE; rewrite /get_accumulated_frame bufE /=.
case: ifP => [_|/negbT]; first exact: (last_copies zeros A k).
rewrite orbF -ltNge => gt1.
rewrite -[A :: nseq k A]/(nseq k.+1 A) size_nseq drop_nseq mean_uint8_nseq //.
rewrite subKn ?geq_minr // leq_min absz_gt0 andbT.
by rewrite gt_eqF ?(lt_trans _ gt1).
Qed.

End FrameBufferRuns.

(** ** The decoder and the wire format *)

Section WireFormat.
Import TcpServer.
Local Open Scope nat_scope.

Lemma to_nat_byte_of_nat n : Strings.Byte.to_nat (byte_of_nat n) = n %% 256.
Proof.
rewrite /byte_of_nat; case E: (Strings.Byte.of_nat _) => [b|].
  exact: Strings.Byte.to_of_nat E.
have /ssrnat.ltP : (255 < n %% 256)%coq_nat by apply/Strings.Byte.of_nat_None_iff.
by rewrite ltnNge -ltnS ltn_pmod.
Qed.

Lemma u32_be_bytes n rest : n < 256 ^ 4 -> u32_be (u32_bytes n ++ rest) = n.
Proof.
move=> lt; rewrite /u32_be /u32_bytes /= take0 /= !to_nat_byte_of_nat mul0n add0n.
have pos3 : 0 < 256 ^ 3 by rewrite expn_gt0.
have -> : n %/ 256 ^ 3 %% 256 = n %/ 256 ^ 3.
  by apply: modn_small; rewrite (ltn_divLR _ _ pos3) -expnS; exact: lt.
rewrite (expnS 256 2) (expnS 256 1) expn1 !divnMA.
rewrite -(divn_eq (n %/ 256 %/ 256) 256) -(divn_eq (n %/ 256) 256).
by rewrite -(divn_eq n 256).
Qed.

Lemma size_u32_bytes n : size (u32_bytes n) = 4.
Proof. exact: erefl. Qed.

Lemma size_wire_header ty n : size (u32_bytes ty ++ u32_bytes n) = 8.
Proof. exact: erefl. Qed.

(** One well-formed packet at the head of the buffer. *)
Lemma process_wire_packet ty data rest :
  ty < 256 ^ 4 -> size data < 256 ^ 4 ->
  _process_data_packets (wire_packet ty data ++ rest)
  = (decoded ty data ++ (_process_data_packets rest).1,
     (_process_data_packets rest).2).
Proof.
move=> lt_ty lt_sz; rewrite process_packets_unfold /wire_packet.
rewrite -!catA (u32_be_bytes _ lt_ty).
rewrite (drop_size_cat _ (size_u32_bytes ty)) (u32_be_bytes _ lt_sz).
rewrite catA size_cat size_wire_header leq_addr size_cat.
rewrite ltnNge leq_add2l leq_addr [negb true]/=.
rewrite -[8 + size data]/((8 + size data)%N).
have -> : drop (8 + size data) ((u32_bytes ty ++ u32_bytes (size data)) ++ data ++ rest)
          = rest.
  rewrite drop_cat size_wire_header ltnNge leq_addr [negb true]/= addKn.
  by rewrite drop_size_cat.
rewrite (drop_size_cat _ (size_wire_header ty (size data))) take_size_cat //.
case: (_process_data_packets rest) => out rest'.
by case: ty {lt_ty} => [|[|ty]].
Qed.

Lemma process_incomplete buf :
  incomplete buf -> _process_data_packets buf = ([::], buf).
Proof.
by rewrite /incomplete process_packets_unfold; case: ltnP => [lt _|ge /= ->].
Qed.

(** X9: the decoder inverts the wire format.  A stream made of packets
    written as [struct.pack("!II", type, len(data)) + data], followed by the
    beginning of a further packet, decodes to exactly these packets in
    order, those of a type other than 0 and 1 being skipped, and the
    unfinished rest stays in the buffer. *)
Theorem decoder_inverts_the_wire_format (ps : seq (nat * seq byte)) rest :
  all (fun p => (p.1 < 256 ^ 4) && (size p.2 < 256 ^ 4)) ps ->
  incomplete rest ->
  _process_data_packets
    (flatten [seq wire_packet p.1 p.2 | p <- ps] ++ rest)
  = (flatten [seq decoded p.1 p.2 | p <- ps], rest).
Proof.
move=> wf inc; elim: ps wf => [|[ty data] ps IH] /=.
  by move=> _; rewrite process_incomplete.
case/andP=> /andP[lt_ty lt_sz] /IH {}IH.
by rewrite -catA process_wire_packet // IH.
Qed.

(** X10: what [_process_data_packets] leaves in the buffer is the end of
    what it was given, holds no complete packet, and decoding it again
    yields nothing. *)
Theorem decoder_leaves_no_complete_packet buf :
  let rest := (_process_data_packets buf).2 in
  [/\ exists k, rest = drop k buf,
      incomplete rest
    & _process_data_packets rest = ([::], rest)].
Proof.
move=> rest; suff [sfx inc] : (exists k, rest = drop k buf) /\ incomplete rest.
  by split=> //; exact: process_incomplete.
rewrite /rest {rest}; move: {2}(size buf) (leqnn (size buf)) => n.
elim: n buf => [|n IH] buf le.
  rewrite process_packets_unfold leqNgt (leq_ltn_trans le) //=.
  by split; [exists 0; rewrite drop0 | rewrite /incomplete (leq_ltn_trans le)].
rewrite process_packets_unfold; case: (leqP 8 (size buf)) => [ge8|lt8] /=; last first.
  by split; [exists 0; rewrite drop0 | rewrite /incomplete lt8].
case: (ltnP (size buf) (8 + u32_be (drop 4 buf))) => [lt|full] /=.
  by split; [exists 0; rewrite drop0 | rewrite /incomplete lt orbT].
set k := 8 + _; have /IH[] : size (drop k buf) <= n.
  rewrite size_drop leq_subLR (leq_trans le) // /k -addnA addSn ltnS.
  by rewrite addnA leq_addl.
case: (_process_data_packets (drop k buf)) => out rest' /= [j ->] inc.
by split=> //; exists (j + k); rewrite drop_drop.
Qed.

End WireFormat.

Section Signals.
Import TcpServer.
Variable F : realFieldType.
Local Open Scope nat_scope.

(** X11: what reaches the window from one frame packet.  A packet of type 0
    arriving whole on an empty buffer emits the connection quality first;
    then the frame if its payload is 64 x 64 values of 8 bytes, nothing at
    all if it is another whole number of 8-byte values, and a logged error
    otherwise.  The buffer is empty afterwards. *)
Theorem frame_packet_signals (s : TcpServer.t F) (data : seq byte) (now : F) :
  read_buffer s = [::] -> size data < 256 ^ 4 ->
  let r := _on_data_ready_read s (wire_packet 0 data) now in
  [/\ read_buffer r.1.1 = [::], r.1.2 = [:: Packet FrameKind data]
    & r.2 = connectionQuality ((now - _last_packet_time s) * 1000%:R)%R ::
            (if size data == 8 * (FRAME_WIDTH * FRAME_HEIGHT)
             then [:: dataReceived data]
             else if 8 %| size data then [::] else [:: logFrameError])].
Proof.
move=> empty lt r; rewrite /r /_on_data_ready_read empty cat0s.
rewrite -[wire_packet 0 data]cats0 process_wire_packet //=.
split=> //; congr (_ :: _); rewrite cats0 /dispatch /= /_process_frame_data.
rewrite /dvdn; case: (eqVneq (size data %% 8) 0) => [d8|nd8] /=.
  have -> : (size data %/ 8 != FRAME_WIDTH * FRAME_HEIGHT)
            = (size data != 8 * (FRAME_WIDTH * FRAME_HEIGHT)).
    have sz : size data = 8 * (size data %/ 8).
      by rewrite mulnC {1}(divn_eq (size data) 8) d8 addn0.
    by rewrite [in RHS]sz eqn_pmul2l.
  by case: eqP.
by case: eqP => // sz; rewrite sz modnMr in nd8.
Qed.

(** X21: what reaches the window from one pose packet.  A packet of type 1
    arriving whole on an empty buffer emits the connection quality, then the
    pose if its payload is a whole number of 8-byte values and holds at
    least seven of them, a logged error if it is not a whole number of
    values, and nothing if the values are fewer than seven. *)
Theorem pose_packet_signals (s : TcpServer.t F) (data : seq byte) (now : F) :
  read_buffer s = [::] -> size data < 256 ^ 4 ->
  let r := _on_data_ready_read s (wire_packet 1 data) now in
  [/\ read_buffer r.1.1 = [::], r.1.2 = [:: Packet PoseKind data]
    & r.2 = connectionQuality ((now - _last_packet_time s) * 1000%:R)%R ::
            (if ~~ (8 %| size data) then [:: logCoordinateError]
             else if 56 <= size data then [:: coordinateReceived data]
             else [::])].
Proof.
move=> empty lt r; rewrite /r /_on_data_ready_read empty cat0s.
rewrite -[wire_packet 1 data]cats0 process_wire_packet //=.
split=> //; congr (_ :: _); rewrite cats0 /dispatch /= /_process_coordinate_data.
rewrite /dvdn; case: (eqVneq (size data %% 8) 0) => [d8|nd8] //=.
have sz : size data = 8 * (size data %/ 8).
  by rewrite mulnC {1}(divn_eq (size data) 8) d8 addn0.
by rewrite [in RHS]sz -[56]/(8 * 7) leq_pmul2l.
Qed.

End Signals.

(** ** Storage paths *)

Section SanitizePath.
Import TerahertzDetectorUI.
Local Open Scope nat_scope.

(** X12: [sanitize_path] keeps the length of the path, leaves none of the
    characters it looks for, changes nothing else, and applying it twice is
    applying it once. *)
Theorem sanitize_path_cleans_once_and_for_all (path : seq byte) :
  [/\ size (sanitize_path path) = size path,
      all (fun c => ~~ forbidden c) (sanitize_path path),
      forall i, ~~ forbidden (nth Init.Byte.x00 path i) ->
        nth Init.Byte.x00 (sanitize_path path) i = nth Init.Byte.x00 path i
    & sanitize_path (sanitize_path path) = sanitize_path path].
Proof.
have clean c : ~~ forbidden (if forbidden c then Init.Byte.x5f else c).
  by case: ifP => [_|->].
split.
- by rewrite size_map.
- by elim: path => //= c s ->; rewrite andbT -/(forbidden c); exact: clean.
- move=> i; have [lti|gei] := ltnP i (size path); last first.
    by rewrite !nth_default ?size_map.
  by rewrite (nth_map Init.Byte.x00) // => /negbTE; rewrite /forbidden => ->.
- rewrite /sanitize_path -map_comp; apply: eq_map => c /=.
  by rewrite -!/(forbidden _) (negbTE (clean c)).
Qed.

End SanitizePath.

(** ** Playback *)

Section PlaybackTheorems.
Import TerahertzDetectorUI PlaybackController.
Variable F : realFieldType.
Implicit Types pc : TerahertzDetectorUI.PlaybackController F.
Local Open Scope nat_scope.

Lemma play_frames pc (m : playback_event) : frames (play pc m) = frames pc.
Proof.
by case: m => [|k] /=; rewrite /_next_frame /_jump_to_frame; case: ifP.
Qed.

Lemma play_in_range pc (m : playback_event) :
  current_index pc < size (frames pc) ->
  current_index (play pc m) < size (frames (play pc m)).
Proof.
case: m => [|k] lt /=; rewrite /_next_frame /_jump_to_frame.
  by case: ifP => //= _; rewrite ltn_pmod // (leq_trans _ lt).
by case: ifP.
Qed.

(** X13: once the index points at a frame it does so after every run of
    timer ticks and slider jumps, the frames staying what they were, so
    there is always a frame to display; a jump beyond the last frame is
    ignored; and as many ticks as there are frames bring the index back to
    where it was. *)
Theorem playback_index_stays_on_a_frame pc (ms : seq playback_event) k :
  current_index pc < size (frames pc) ->
  let pc' := foldl (@play F) pc ms in
  [/\ frames pc' = frames pc,
      displayed_frame pc' = Some (nth [::] (frames pc) (current_index pc')),
      size (frames pc) <= k -> _jump_to_frame pc k = pc
    & current_index (iter (size (frames pc)) (@_next_frame F) pc)
      = current_index pc].
Proof.
move=> lt pc'.
have [fr rng] : frames pc' = frames pc /\ current_index pc' < size (frames pc').
  rewrite /pc'; elim: ms pc lt {pc'} => [|m ms IH] pc lt //=.
  have [e rng] := IH _ (play_in_range m lt).
  by split; [rewrite e play_frames | exact: rng].
split=> //.
- by rewrite /displayed_frame rng fr.
- by rewrite /_jump_to_frame ltnNge => ->.
have step j : j <= size (frames pc) ->
    frames (iter j (@_next_frame F) pc) = frames pc /\
    current_index (iter j (@_next_frame F) pc)
    = (current_index pc + j) %% size (frames pc).
  elim: j => [_|j IH /ltnW/IH[frj idx]] /=; first by rewrite addn0 modn_small.
  move: frj idx; set q := iter j _ pc => frj idx.
  rewrite /_next_frame frj; case: ifP => [|_ /=].
    by move/nilP=> nil; rewrite nil in lt.
  by split=> //; rewrite idx -addn1 modnDml addn1 addnS.
have [_ ->] := step _ (leqnn _).
by rewrite -modnDmr modnn addn0 modn_small.
Qed.

End PlaybackTheorems.

(** ** The window: further behaviour of the session logic *)

Section SessionEdges.
Import TerahertzDetectorUI.
Variable F : realFieldType.
Implicit Types (st : TerahertzDetectorUI.t F) (e : env F).

(** X14: while the declared fps is zero or negative the mode button and
    the filter part ways: setting the button changes the button and logs
    the new mode, and the filter keeps the mode it had, because [set_fps]
    returns before looking at the mode. *)
Theorem mode_button_and_filter_part_ways st b :
  push_fps st <= 0 -> kalman_mode_btn (connection_dialog st) != b ->
  let st' := kalman_mode_btn_setChecked st b in
  [/\ kalman_mode_btn (connection_dialog st') = b,
      coordinate_predictor st' = coordinate_predictor st
    & log st' = rcons (log st) (LOG_INFO, MsgKalmanMode b)].
Proof.
rewrite /kalman_mode_btn_setChecked /_toggle_kalman_mode; open_state st.
rewrite [push_fps _]/= [kalman_mode_btn _]/= => le0 /negbTE ne.
by ui_red; rewrite ne /CoordinatePredictor.set_fps le0.
Qed.

(** X15: a start that cannot use the storage path, empty or not creatable,
    records nothing and leaves the button unchecked, but it has already sent
    START to a connected device, it starts the fps timer, and it has emptied
    the pose and fps series of the session held for playback while keeping
    its frames. *)
Theorem start_without_storage st e :
  ~~ record_btn st ->
  nilp (path_edit (connection_dialog st)) || ~~ mkdir_ok e ->
  let st' := step st (RecordButtonClicked e) in
  [/\ is_recording st' = is_recording st /\ record_btn st' = false,
      recorded_frames st' = recorded_frames st,
      (frames (playback_controller st'), coords (playback_controller st'),
       fps_values (playback_controller st'))
      = (frames (playback_controller st), [::], [::]),
      fps_timer st'
    & sent st' = if client_socket st then rcons (sent st) START else sent st].
Proof.
rewrite /step; open_state st; case: e => tm mk ok sr.
rewrite [record_btn _]/= [path_edit _]/= [mkdir_ok _]/= => /negbTE -> cond.
ui_red; case: sock; ui_red; case: (nilp pe) cond => /=; ui_red => //.
  by case: mk.
by case: mk.
Qed.

(** X16: in an open session every frame is recorded, and the frame that
    brings the count to the target ends the recording: the button is
    unchecked, the fps timer stops, STOP goes to a connected device and the
    recorded frames become the session held for playback.  Below the target
    the recording goes on. *)
Theorem recording_stops_at_the_target st data e :
  is_recording st -> ~~ waiting_for_first_coordinate st ->
  let st' := step st (FrameReceived data e) in
  let target := frame_count_spin (connection_dialog st) in
  [/\ recorded_frames st' = rcons (recorded_frames st) data,
      ((frame_count st).+1 < target)%N ->
      is_recording st' /\ frame_count st' = (frame_count st).+1,
      (target <= (frame_count st).+1)%N ->
      (is_recording st', record_btn st', fps_timer st') = (false, false, false) /\
      frames (playback_controller st') = rcons (recorded_frames st) data
    & (target <= (frame_count st).+1)%N ->
      sent st' = if client_socket st then rcons (sent st) STOP else sent st].
Proof.
rewrite /step; open_state st; case: e => tm mk ok sr /= -> /negbTE ->.
rewrite ltnNge.
have [h [t eq]] : exists h t, rcons rf data = h :: t.
  by case: (rf) => [|r rs]; [exists data, [::] | exists r, (rcons rs data)].
case: ds; case: sr; case: sock; case: pfr => [|g gs]; case: pfp => [|v vs];
  ui_red; rewrite eq; by split_cases.
Qed.

(** X17: [stop_recording] raises when a recording with at least one frame
    has declared fps values whose mean lies strictly between -1 and 1:
    [set_session_data] truncates the mean to zero and divides by it.  The
    recording is off by then, the recorded frames are already the session
    held for playback, nothing is logged, and the click handler reports the
    failure. *)
Theorem stop_recording_raises_on_fps_below_one st e :
  let fps := fps_values (playback_controller st) in
  let avg := (\sum_(v <- fps) v) / (size fps)%:R in
  [&& is_recording st, ~~ nilp (recorded_frames st),
      ~~ nilp fps & (-1 < avg) && (avg < 1)] ->
  let st' := state_of (stop_recording st) in
  [/\ is_normal (stop_recording st) = false,
      is_recording st' = false,
      frames (playback_controller st') = recorded_frames st,
      log st' = log st
    & ~~ record_btn st ->
      log (on_record_clicked st e)
      = rcons (if client_socket st then rcons (log st) (LOG_INFO, MsgSentStop)
               else log st)
              (LOG_ERROR, MsgRecordFailed)].
Proof.
cbv zeta; open_state st; case: e => tm mk ok sr.
case: ir; last by ui_red.
case: rb; case: sock; case: ds; case: rf => [|f fs]; case: pfr => [|g gs];
  case: pfp => [|v vs]; ui_red;
  first [set a := (_ / _); by case: (-1 < a); case: (a < 1) | by []].
Qed.

Lemma set_fps_noise (p : CoordinatePredictor.t F) fps m :
  R (CoordinatePredictor.set_fps p fps m).1 = R p.
Proof. by rewrite /CoordinatePredictor.set_fps; case: ifP. Qed.

Lemma measured_fps_of_view st1 st2 :
  filter_view st1 = filter_view st2 -> _measured_fps st1 = _measured_fps st2.
Proof. by move=> fv; exact: (congr1 (fun v => v.1.2) fv). Qed.

Lemma predictor_of_view st1 st2 :
  filter_view st1 = filter_view st2 ->
  coordinate_predictor st1 = coordinate_predictor st2.
Proof. by case/filter_view_eq. Qed.

Lemma auto_switch_measured st :
  _measured_fps (auto_switch st) = _measured_fps st /\
  R (coordinate_predictor (auto_switch st)) = R (coordinate_predictor st).
Proof.
rewrite /auto_switch; case: ifP => // _.
case: (arbiter_decision _ _ _) => [[|]|] //; case: ifP => // _.
- have [_ _ av _ cp] := kalman_mode_btn_setChecked_fields st true.
  have mf : _measured_fps (kalman_mode_btn_setChecked st true) = _measured_fps st
    := congr1 (fun v => v.1.2) av.
  split; first exact: mf.
  rewrite -[coordinate_predictor (_log _ _ _)]/(coordinate_predictor
            (kalman_mode_btn_setChecked st true)) cp.
  by case: ifP => // _; rewrite set_fps_noise.
- have [_ _ av _ cp] := kalman_mode_btn_setChecked_fields st false.
  have mf : _measured_fps (kalman_mode_btn_setChecked st false) = _measured_fps st
    := congr1 (fun v => v.1.2) av.
  split; first exact: mf.
  rewrite -[coordinate_predictor (_log _ _ _)]/(coordinate_predictor
            (kalman_mode_btn_setChecked st false)) cp.
  by case: ifP => // _; rewrite set_fps_noise.
Qed.

Lemma step_measured_fps st ev :
  (if ev is FpsTimerTimeout _ then false else true) ->
  _measured_fps (step st ev) = _measured_fps st.
Proof.
case: ev => [e|data e|coord ts fps e|delay|tm] //= _.
- have [_ _ fv _] := on_record_clicked_fields (st <| record_btn ::= negb |>) e.
  exact: measured_fps_of_view fv.
- have [_ fv _] := handle_frame_fields st data e.
  exact: measured_fps_of_view fv.
- have [av _ _ _ fv] := handle_coordinate_filter st coord ts fps e.
  rewrite (measured_fps_of_view fv).
  have mf2 := congr1 (fun v => v.1.2) av.
  case: ifP => _; last exact: mf2.
  by have [-> _] := auto_switch_measured (state_of (filter_coordinate
       (receive_coordinate st (take 6 coord) fps).1 (take 6 coord) ts
       (receive_coordinate st (take 6 coord) fps).2)); exact: mf2.
Qed.

Lemma run_measured_fps st evs :
  0 <= _measured_fps st -> 0 <= _measured_fps (run st evs).
Proof.
elim: evs st => [|ev evs IH] st ge0 //=; apply: IH.
case: ev => [e|data e|coord ts fps e|delay|tm];
  try by rewrite step_measured_fps.
rewrite /step; case: ifP => // _; rewrite /_update_real_fps.
rewrite -[_measured_fps _]/(if 0 < tm - t_start st
                            then (fps_cnt st)%:R / (tm - t_start st) else 0).
by case: ifP => [/ltW pos|_]; rewrite ?lexx // divr_ge0 // ler0n.
Qed.

(** X18: the measured fps never becomes negative: from any state of the
    window in which it is not, connected or not, it is not after any run of
    record clicks, frame messages, pose messages, connection-quality updates
    and fps-timer ticks; only a tick changes it, and a tick with no time
    elapsed on the clock gives zero, not a division by zero. *)
Theorem measured_fps_is_never_negative st evs :
  0 <= _measured_fps st ->
  let st1 := run st evs in
  [/\ 0 <= _measured_fps st1,
      forall ev, (if ev is FpsTimerTimeout _ then false else true) ->
        _measured_fps (step st1 ev) = _measured_fps st1
    & forall now0, fps_timer st1 -> now0 <= t_start st1 ->
        _measured_fps (step st1 (FpsTimerTimeout now0)) = 0].
Proof.
move=> ge0 st1; split.
- exact: run_measured_fps.
- by move=> ev; exact: step_measured_fps.
move=> now0 tmr le; rewrite /step tmr /_update_real_fps.
rewrite -[_measured_fps _]/(if 0 < now0 - t_start st1 then _ else 0).
by rewrite subr_gt0 ltNge le.
Qed.

(** X19: the filter distrusts a repeated pose.  When the first six values
    of a pose differ from the ones received before by at most 1e-6 each, the
    update runs with the measurement noise multiplied by 100, and with the
    base noise otherwise; the automatic switch leaves the noise alone. *)
Theorem repeated_pose_inflates_the_noise st (coord : 12.-tuple F) ts fps e :
  let changed := coord_changed (take 6 coord) (last_received_coord st) in
  let st' := state_of (_handle_coordinate st coord ts fps e) in
  R (coordinate_predictor st')
  = if changed then R_base F else 100%:R *: R_base F.
Proof.
move=> changed st'; set c6 := take 6 coord.
have [_ _ _ _ fv] := handle_coordinate_filter st coord ts fps e.
have [_ _ _ cp1 [_ r2]] := receive_coordinate_fields st c6 fps.
have [_ _ _ cp2 _] :=
  filter_coordinate_fields (receive_coordinate st c6 fps).1 c6 ts
                           (receive_coordinate st c6 fps).2.
have [Ru _] := update_noise (coordinate_predictor (receive_coordinate st c6 fps).1)
                 ts (receive_coordinate st c6 fps).2 (size_take6 coord).
rewrite /st' (predictor_of_view fv).
have -> : R (coordinate_predictor
               (if is_normal (filter_coordinate (receive_coordinate st c6 fps).1
                                c6 ts (receive_coordinate st c6 fps).2)
                then auto_switch (state_of (filter_coordinate
                       (receive_coordinate st c6 fps).1 c6 ts
                       (receive_coordinate st c6 fps).2))
                else state_of (filter_coordinate
                       (receive_coordinate st c6 fps).1 c6 ts
                       (receive_coordinate st c6 fps).2)))
          = R (coordinate_predictor (state_of (filter_coordinate
                       (receive_coordinate st c6 fps).1 c6 ts
                       (receive_coordinate st c6 fps).2))).
  by case: ifP => // _; exact: (proj2 (auto_switch_measured _)).
by rewrite cp2 Ru r2 /noise -/changed.
Qed.

(** X20: a pose that arrives while nothing is recorded is not kept: the
    session series, the recorded frames and the recording flag stay as they
    were.  It is still taken in: the declared fps is stored and the filter
    runs its update on it. *)
Theorem pose_outside_a_recording st (coord : 12.-tuple F) ts fps e :
  ~~ is_recording st ->
  let c6 := take 6 coord in
  let u := update (CoordinatePredictor.set_fps (coordinate_predictor st) fps None).1
                  c6 ts (coord_changed c6 (last_received_coord st)) in
  let st' := state_of (_handle_coordinate st coord ts fps e) in
  [/\ pose_series st' = pose_series st,
      recorded_frames st' = recorded_frames st,
      is_recording st' = false
    & P (coordinate_predictor st') = P (CoordinatePredictor.state_of u)].
Proof.
move=> /negbTE rec c6 u st'.
have covE : P (coordinate_predictor st') = P (CoordinatePredictor.state_of u).
  exact: handle_coordinate_cov.
have [rv1 _ _ _ _] := receive_coordinate_fields st c6 fps.
set r1 := receive_coordinate st c6 fps in rv1.
have [_ rv2 _ _ _] := filter_coordinate_fields r1.1 c6 ts r1.2.
set o2 := filter_coordinate r1.1 c6 ts r1.2 in rv2.
have [rv3 _ _ _ _] := auto_switch_fields (state_of o2).
have rv : recording_view (auto_switch (state_of o2)) = recording_view st.
  by rewrite rv3 rv2 rv1.
have [/session_view_eq[rf3 ps3 _ _ _] rec3 _ _] := recording_view_eq rv.
have [/session_view_eq[rf2 ps2 _ _ _] rec2 _ _] :=
  recording_view_eq (etrans rv2 rv1).
split=> //; rewrite /st' handle_coordinate_stages -/c6 -/r1 -/o2;
  (case: (is_normal o2); last by rewrite [state_of _]/= ?ps2 ?rf2 ?rec2);
  rewrite /create_session_on_first_coordinate rec3 rec andbF [is_normal _]/=;
  rewrite [state_of _]/= /record_coordinate rec3 rec [false && _]/=.
- exact: ps3.
- exact: rf3.
- by rewrite rec3.
Qed.

End SessionEdges.

(** ** Instances of the further properties *)

Section FurtherInstances.
Import TerahertzDetectorUI Examples.

Lemma pristine_fresh_predictor kalman_mode : pristine (fresh_predictor kalman_mode).
Proof. by split. Qed.

Lemma apply_calls_cons (F : realFieldType) (p : CoordinatePredictor.t F) c cs :
  apply_calls p (c :: cs) = apply_calls (apply_call p c) cs.
Proof. by []. Qed.

Lemma size_measure_x1 : size measure_x1 = 6%N.
Proof. by []. Qed.

Lemma update_never_raises_witness :
  pristine (fresh_predictor true) /\
  returned (update (apply_calls (fresh_predictor true) some_calls)
                   measure_x1 3%:R true).
Proof.
have new := pristine_fresh_predictor true.
split; first exact: new.
exact: (proj1 (@update_never_raises rat (fresh_predictor true) some_calls
                 measure_x1 3%:R true new)).
Defined.

Lemma filter_invariants_witness :
  pristine (fresh_predictor false) /\
  (size (state_history (apply_calls (fresh_predictor false) some_calls)) <= 10)%N.
Proof.
have new := pristine_fresh_predictor false.
split; first exact: new.
by have [_ bound _ _] := @filter_invariants rat (fresh_predictor false) some_calls new.
Defined.

Lemma timestamp_witness :
  let p := fresh_predictor true in
  use_fixed_fps p || ~~ last_update_time p /\
  x (CoordinatePredictor.state_of (update p measure_x1 1 true))
  = x (CoordinatePredictor.state_of (update p measure_x1 2%:R true)).
Proof.
move=> p; have mode : use_fixed_fps p || ~~ last_update_time p by [].
split; first exact: mode.
have [same _] :=
  @timestamp_only_matters_in_measured_mode rat p measure_x1 1 2%:R true.
by have [xE _ _ _] := same mode.
Defined.

Lemma reset_forgets_witness :
  let p := apply_calls (fresh_predictor true) [:: Update measure_x1 1 true] in
  let q := apply_calls (fresh_predictor true) [::] in
  let later := [:: Update measure_x1 5%:R true] in
  [/\ pristine (fresh_predictor true), current_fps p = current_fps q
    & x (apply_calls (reset p) later) = x (apply_calls (reset q) later)].
Proof.
move=> p q later; have new := pristine_fresh_predictor true.
have fpsE : current_fps p = current_fps q.
  have [_ fE _ _ _] := update_fields (fresh_predictor true) 1 true size_measure_x1.
  exact: fE.
split; [exact: new | exact: fpsE | ].
by have [xE _ _ _ _] :=
  @reset_forgets_earlier_calls rat (fresh_predictor true)
    [:: Update measure_x1 1 true] [::] later new fpsE.
Defined.

Lemma predict_witness :
  let p := apply_calls (fresh_predictor true) [:: Update measure_x1 1 true] in
  let steps := int_of_float (1 * current_fps p) in
  [/\ pristine (fresh_predictor true), last_update_time p, (0 < steps)%R
    & predict p 1
      = first6 (x p) + (`|steps|%:R * A p ord0 (inord 6)) *: last6 (x p)].
Proof.
move=> p steps; have new := pristine_fresh_predictor true.
have [_ fE tE _ _] := update_fields (fresh_predictor true) 1 true size_measure_x1.
have upd : last_update_time p by rewrite /p apply_calls_cons [apply_calls _ _]/= tE.
have pos : 0 < steps.
  rewrite ltNge /steps int_of_float_le0 -leNgt mul1r.
  by rewrite /p apply_calls_cons [apply_calls _ _]/= fE ler1n.
split; [exact: new | exact: upd | exact: pos | ].
have [ex _ _] :=
  @predict_extrapolates_linearly rat (fresh_predictor true)
    [:: Update measure_x1 1 true] 1 new.
exact: ex upd pos.
Defined.

Lemma accumulated_frame_is_a_frame_witness :
  all FrameBuffer.is_frame (FrameBuffer.buffer three_frames) /\
  FrameBuffer.is_frame (FrameBuffer.get_accumulated_frame three_frames 2).
Proof.
have wf : all FrameBuffer.is_frame (FrameBuffer.buffer three_frames) by vm_compute.
by split; [exact: wf | exact: (@accumulated_frame_is_a_frame three_frames 2 wf)].
Defined.

Lemma accumulating_copies_witness :
  (0 < 3)%N /\ FrameBuffer.get_accumulated_frame copies_buffer 2 = frame_a.
Proof.
split; first exact: isT.
exact: (@accumulating_copies_returns_the_frame copies_buffer 3 frame_a 2 isT
          (erefl _)).
Defined.

Lemma small_u32 n : (n < 256 -> n < 256 ^ 4)%N.
Proof.
by move=> lt; apply: leq_trans lt _; rewrite -{1}(expn1 256) leq_pexp2l.
Qed.

Lemma decoder_witness :
  let ps := [:: (0%N, payload4); (7%N, payload4); (1%N, header4)] in
  let rest := take 3 header4 in
  [/\ all (fun p => (p.1 < 256 ^ 4)%N && (size p.2 < 256 ^ 4)%N) ps,
      TcpServer.incomplete rest
    & TcpServer._process_data_packets
        (flatten [seq TcpServer.wire_packet p.1 p.2 | p <- ps] ++ rest)
      = ([:: TcpServer.Packet TcpServer.FrameKind payload4;
             TcpServer.Packet TcpServer.PoseKind header4], rest)].
Proof.
move=> ps rest.
have wf : all (fun p => (p.1 < 256 ^ 4)%N && (size p.2 < 256 ^ 4)%N) ps.
  rewrite /ps [all _ _]/=; exact: isT.
have inc : TcpServer.incomplete rest by [].
split; [exact: wf | exact: inc | ].
exact: (decoder_inverts_the_wire_format wf inc).
Defined.

Lemma frame_packet_witness :
  let r := TcpServer._on_data_ready_read fresh_server
             (TcpServer.wire_packet 0 payload4) 1 in
  [/\ TcpServer.read_buffer fresh_server = [::], (size payload4 < 256 ^ 4)%N,
      r.1.2 = [:: TcpServer.Packet TcpServer.FrameKind payload4]
    & r.2 = [:: TcpServer.connectionQuality ((1 - 0) * 1000%:R);
                TcpServer.logFrameError]].
Proof.
move=> r; have lt : (size payload4 < 256 ^ 4)%N by apply: small_u32.
have [_ pk sg] := @frame_packet_signals rat fresh_server payload4 1 (erefl _) lt.
by split; [exact: erefl | exact: lt | exact: pk | exact: sg].
Defined.

Lemma playback_witness :
  let pc' := foldl (@PlaybackController.play rat) two_frame_session
               [:: PlaybackController.Next; PlaybackController.Jump 5;
                   PlaybackController.Next] in
  (current_index two_frame_session < size (frames two_frame_session))%N /\
  frames pc' = [:: frame_a; frame_b].
Proof.
move=> pc'; split; first exact: isT.
by have [fr _ _ _] :=
  @playback_index_stays_on_a_frame rat two_frame_session
    [:: PlaybackController.Next; PlaybackController.Jump 5;
        PlaybackController.Next] 5 isT.
Defined.

Lemma mode_button_witness :
  let st' := kalman_mode_btn_setChecked zero_fps_ui false in
  [/\ push_fps zero_fps_ui <= 0,
      kalman_mode_btn (connection_dialog zero_fps_ui) != false,
      kalman_mode_btn (connection_dialog st') = false
    & use_fixed_fps (coordinate_predictor st') = true].
Proof.
move=> st'; have le0 : push_fps zero_fps_ui <= 0 by exact: lexx.
have [btn cp _] := @mode_button_and_filter_part_ways rat zero_fps_ui false le0 isT.
by split; [exact: le0 | exact: isT | exact: btn | rewrite cp].
Defined.

Lemma start_without_storage_witness :
  let st' := step (fresh_ui true false) (RecordButtonClicked no_storage) in
  [/\ ~~ record_btn (fresh_ui true false),
      nilp (path_edit (connection_dialog (fresh_ui true false)))
      || ~~ mkdir_ok no_storage,
      is_recording st' = false & fps_timer st'].
Proof.
move=> st'.
have [[rec _] _ _ tmr _] :=
  @start_without_storage rat (fresh_ui true false) no_storage isT isT.
by split; [exact: isT | exact: isT | exact: rec | exact: tmr].
Defined.

Lemma active_ui_flags :
  is_recording active_ui /\ waiting_for_first_coordinate active_ui = false.
Proof.
have [_ flags _ _] := active_ui_facts.
split; first exact: (congr1 (fun v => v.1.1) flags).
exact: (congr1 (fun v => v.2) flags).
Qed.

Lemma recording_stops_witness :
  let st' := step active_ui (FrameReceived frame_c (env_at 4%:R)) in
  [/\ is_recording active_ui, ~~ waiting_for_first_coordinate active_ui
    & recorded_frames st' = rcons (recorded_frames active_ui) frame_c].
Proof.
move=> st'; have [rec wait] := active_ui_flags.
have nwait : ~~ waiting_for_first_coordinate active_ui := negbT wait.
have [rf _ _ _] :=
  @recording_stops_at_the_target rat active_ui frame_c (env_at 4%:R) rec nwait.
by split; [exact: rec | exact: nwait | exact: rf].
Defined.

Lemma measured_fps_witness :
  let st1 := run connected_ui
               [:: RecordButtonClicked (env_at 0); FrameReceived frame_a (env_at 1);
                   FpsTimerTimeout 2%:R] in
  0 <= _measured_fps connected_ui /\ 0 <= _measured_fps st1.
Proof.
move=> st1; have ge0 : 0 <= _measured_fps connected_ui by exact: lexx.
split; first exact: ge0.
by have [pos _ _] :=
  @measured_fps_is_never_negative rat connected_ui
    [:: RecordButtonClicked (env_at 0); FrameReceived frame_a (env_at 1);
        FpsTimerTimeout 2%:R] ge0.
Defined.

Lemma stop_raises_witness :
  let fps := fps_values (playback_controller slow_ui) in
  let avg := (\sum_(v <- fps) v) / (size fps)%:R in
  [&& is_recording slow_ui, ~~ nilp (recorded_frames slow_ui),
      ~~ nilp fps & (-1 < avg) && (avg < 1)] /\
  is_normal (stop_recording slow_ui) = false.
Proof.
move=> fps avg.
have cond : [&& is_recording slow_ui, ~~ nilp (recorded_frames slow_ui),
                ~~ nilp fps & (-1 < avg) && (avg < 1)].
  rewrite /avg /fps -[is_recording slow_ui]/(true).
  rewrite -[recorded_frames slow_ui]/([:: frame_a]).
  rewrite -[fps_values (playback_controller slow_ui)]/([:: 2%:R^-1]).
  rewrite big_cons big_nil addr0 -[size _]/1%N divr1.
  have -> : (-1 < 2%:R^-1 :> rat).
    by rewrite (lt_trans (ltrN10 _)) // invr_gt0 ltr0n.
  by rewrite invf_lt1 ?ltr0n // ltr1n.
split; first exact: cond.
by have [raised _ _ _ _] :=
  @stop_recording_raises_on_fps_below_one rat slow_ui (env_at 0) cond.
Defined.

Lemma pose_outside_a_recording_witness :
  let st' := state_of (_handle_coordinate (fresh_ui true false) pose_x1 1
                                          30%:R (env_at 1)) in
  ~~ is_recording (fresh_ui true false) /\
  pose_series st' = pose_series (fresh_ui true false).
Proof.
move=> st'; split; first exact: isT.
by have [ps _ _ _] :=
  @pose_outside_a_recording rat (fresh_ui true false) pose_x1 1 30%:R
    (env_at 1) isT.
Defined.

Lemma pose_packet_witness :
  let r := TcpServer._on_data_ready_read fresh_server
             (TcpServer.wire_packet 1 payload4) 1 in
  [/\ TcpServer.read_buffer fresh_server = [::], (size payload4 < 256 ^ 4)%N
    & r.2 = [:: TcpServer.connectionQuality ((1 - 0) * 1000%:R);
                TcpServer.logCoordinateError]].
Proof.
move=> r; have lt : (size payload4 < 256 ^ 4)%N by apply: small_u32.
have [_ _ sg] := @pose_packet_signals rat fresh_server payload4 1 (erefl _) lt.
by split; [exact: erefl | exact: lt | exact: sg].
Defined.

End FurtherInstances.
